(** * Webhook delivery: the URL notifier of livekit/protocol

    A shallow embedding of [webhook/url_notifier.go] and of the
    [WebhookEvent] message of [livekit/livekit_webhook.pb.go].

    The notifier is stateful and concurrent.  Its state is a record
    ([World]) that holds the notifier's own fields, the Go heap cells of
    the events it is handed by pointer, and the effects it has on its
    surroundings (log lines, hook calls, HTTP exchanges).  Every method is
    a function on that record; the goroutines of the worker pool are
    interleaved by a list of [action]s, each of which is one atomic step. *)

From Stdlib Require Import ZArith Lia.
From stdpp Require Import base option list gmap strings.

Local Open Scope Z_scope.

(** ** Machine integers *)

(** Go's [int32] arithmetic wraps around in two's complement. *)
Definition int32_max : Z := 2147483647.
Definition int32_min : Z := -2147483648.

Definition wrap32 (x : Z) : Z := (x + 2147483648) mod 4294967296 - 2147483648.
Arguments wrap32 : simpl never.

Definition in_int32 (x : Z) : Prop := int32_min <= x <= int32_max.

(** ** Values shared by the packages *)

(** A Go pointer to a heap cell; [nil] is the absence of a location. *)
Definition loc := positive.

(** A non-nil Go [error], identified by its message; an [error] value is
    an [option error], [None] being [nil]. *)
Definition error := string.

Inductive Result (A : Type) : Type :=
| Ok (a : A)
| Err (e : error).
Arguments Ok {A} a.
Arguments Err {A} e.

(** [time.Time] and [time.Duration], both counted in nanoseconds.  The
    zero [time.Time{}] is [0]. *)
Definition Time := Z.
Definition Duration := Z.
Definition zeroTime : Time := 0.
Definition time_Second : Duration := 1000000000.
Definition time_Minute : Duration := 60 * time_Second.

(** A [context.Context], an opaque token handed through to the hook. *)
Definition Ctx := nat.

Module livekit.

(** [type WebhookEvent struct].  The nested messages are held by
    pointer; the notifier never follows these pointers, so only the
    pointer values are part of the record. *)
Record WebhookEvent : Type := {
  Event : string;
  Room : option loc;
  Participant : option loc;
  EgressInfo : option loc;
  IngressInfo : option loc;
  Track : option loc;
  Id : string;
  CreatedAt : Z;
  NumDropped : Z
}.

(** [event.NumDropped = v] *)
Definition set_NumDropped (e : WebhookEvent) (v : Z) : WebhookEvent :=
  {| Event := Event e; Room := Room e; Participant := Participant e;
     EgressInfo := EgressInfo e; IngressInfo := IngressInfo e;
     Track := Track e; Id := Id e; CreatedAt := CreatedAt e;
     NumDropped := v |}.

(** Modelled from the spec: [livekit.WebhookInfo], the Delivery Outcome
    handed to the hooks, is declared outside the files at hand.  The
    spec lists its content: enqueue timestamp, queue wait duration, send
    start time, send duration, target URL, the "was dropped before
    send" flag and an optional error. *)
Record WebhookInfo : Type := {
  QueuedAt : Time;
  QueueDurationNs : Duration;
  SentAt : Time;
  SendDurationNs : Duration;
  Url : string;
  IsDropped : bool;
  SendError : option error
}.

End livekit.

(** Modelled from the spec: [webhookInfo], the helper that builds the
    Delivery Outcome, is in a file of the package that is not at hand.  It
    takes the event, the four timings, the URL, the dropped flag and the
    error of the send, and fills the outcome from them. *)
Definition webhookInfo (event : livekit.WebhookEvent)
    (queuedAt : Time) (queueDuration : Duration)
    (sentAt : Time) (sendDuration : Duration)
    (url : string) (isDropped : bool) (sendError : option error)
  : livekit.WebhookInfo :=
  {| livekit.QueuedAt := queuedAt;
     livekit.QueueDurationNs := queueDuration;
     livekit.SentAt := sentAt;
     livekit.SendDurationNs := sendDuration;
     livekit.Url := url;
     livekit.IsDropped := isDropped;
     livekit.SendError := sendError |}.

(** Modelled from the spec: [FilterParams] is declared with the filter,
    outside the files at hand; the spec describes an allow-set and a
    deny-set of event-type names. *)
Record FilterParams : Type := {
  IncludeEvents : list string;
  ExcludeEvents : list string
}.

(** Modelled from the spec: [auth.AccessToken], the builder of the signed
    credential.  [NewAccessToken] takes the key pair, [SetValidFor] and
    [SetSha256] record the validity and the digest the token binds. *)
Record AccessToken : Type := {
  at_apiKey : string;
  at_secret : string;
  at_validFor : Duration;
  at_sha256 : string
}.

Definition NewAccessToken (key secret : string) : AccessToken :=
  {| at_apiKey := key; at_secret := secret; at_validFor := 0; at_sha256 := "" |}.

Definition SetValidFor (a : AccessToken) (d : Duration) : AccessToken :=
  {| at_apiKey := at_apiKey a; at_secret := at_secret a;
     at_validFor := d; at_sha256 := at_sha256 a |}.

Definition SetSha256 (a : AccessToken) (sha : string) : AccessToken :=
  {| at_apiKey := at_apiKey a; at_secret := at_secret a;
     at_validFor := at_validFor a; at_sha256 := sha |}.

(** ** HTTP *)

Definition bytes := list Byte.byte.

(** A [retryablehttp.Request]: method, URL, body and headers.
    [Header.Set] replaces the values of a key. *)
Record Request : Type := {
  req_method : string;
  req_url : string;
  req_body : bytes;
  req_header : list (string * string)
}.

Definition Header_Set (r : Request) (k v : string) : Request :=
  {| req_method := req_method r; req_url := req_url r; req_body := req_body r;
     req_header :=
       List.filter (fun kv => negb (String.eqb (fst kv) k)) (req_header r) ++ [(k, v)] |}.

Fixpoint header_lookup (h : list (string * string)) (k : string) : option string :=
  match h with
  | [] => None
  | (k', v) :: h' => if String.eqb k' k then Some v else header_lookup h' k
  end.

Definition Header_Get (r : Request) (k : string) : option string :=
  header_lookup (req_header r) k.

Record Response : Type := {
  res_status : Z;
  res_body : bytes
}.

(** ** Logging *)

(** The key-value list the logger is given is a flat list of values. *)
Inductive LogValue : Type :=
| LVString (s : string)
| LVDuration (d : Duration).

Inductive LogLevel : Type := Infow | Warnw.

Record LogEntry : Type := {
  log_level : LogLevel;
  log_msg : string;
  log_err : option error;
  log_fields : list LogValue
}.

(** ** The surroundings of the notifier

    What the notifier calls and is not in the files at hand: helpers of
    the package ([filter.IsAllowed], [eventKey], [logFields], the constant
    [authHeader]), the standard library (SHA-256, base64), the protobuf
    JSON encoder, the token signer, the retrying HTTP client and the hash
    by which the worker pool picks a partition.  Each is a field of [Env];
    the theorems hold for every [Env]. *)
Record Env : Type := {
  filter_IsAllowed : FilterParams -> string -> bool;
  eventKey : livekit.WebhookEvent -> string;
  logFields : livekit.WebhookEvent -> string -> list LogValue;
  authHeader : string;
  protojson_Marshal : livekit.WebhookEvent -> Result bytes;
  sha256_Sum256 : bytes -> bytes;
  base64_EncodeToString : bytes -> string;
  (** [at.ToJWT()] at the given instant *)
  AccessToken_ToJWT : AccessToken -> Time -> Result string;
  (** the error of [retryablehttp.NewRequest(method, url, _)], if any *)
  NewRequest_error : string -> string -> option error;
  (** [client.Do(r)], retries included; the number is the count of
      requests the client was given before, so answers may change over
      time *)
  client_Do : nat -> Request -> Result Response;
  pool_hash : string -> nat
}.

(** ** The notifier *)

Definition numWorkers : nat := 10.
Definition defaultQueueSize : Z := 100.

(** A registered processed-hook, named by a number; its calls are
    recorded in the world. *)
Definition Hook := nat.

(** [URLNotifierParams].  The logger is the log of the world, the HTTP
    client parameters are part of [client_Do]; the embedded
    [FilterParams] is the field [Filter].  [FieldsHook] receives a
    pointer to the outcome and may rewrite it in place: a function from
    the outcome it is given to the outcome it leaves. *)
Record URLNotifierParams : Type := {
  QueueSize : Z;
  URL : string;
  APIKey : string;
  APISecret : string;
  FieldsHook : option (livekit.WebhookInfo -> livekit.WebhookInfo);
  Filter : FilterParams
}.

(** The closure [QueueNotify] submits: it captures [ctx], the event
    pointer and [enqueuedAt].  The key it was submitted under is kept with
    it, to state the ordering of the pool. *)
Record Job : Type := {
  job_key : string;
  job_ctx : Ctx;
  job_event : loc;
  job_enqueuedAt : Time
}.

(** The locals of a closure that is running inside [send]. *)
Record Frame : Type := {
  fr_job : Job;
  fr_fields : list LogValue;
  fr_queueDuration : Duration;
  fr_sendStart : Time
}.

(** What happened, in order: the points of the code the properties of
    the notifier speak about. *)
Inductive Obs : Type :=
| OAccepted (j : Job)                      (* pool.Submit returned true *)
| ORejected (j : Job)                      (* pool.Submit returned false, dropped.Inc() *)
| OStarted (i : nat) (j : Job)             (* worker i took j from its queue *)
| OSwap (p : loc) (n : Z)                  (* send: event.NumDropped = dropped.Swap(0) *)
| OSent (p : loc) (e : livekit.WebhookEvent) (r : Request)
                                           (* send returned nil; e is the event as encoded *)
| OFailed (p : loc)                        (* send returned an error, dropped.Add(..) *)
| OFinished (i : nat) (j : Job)            (* the closure of j returned *)
| OStopped (force : bool).                 (* Stop(force) was called *)

Record HookCall : Type := {
  hc_hook : Hook;
  hc_ctx : Ctx;
  hc_info : livekit.WebhookInfo
}.

(** The notifier ([URLNotifier]: [params], [dropped], [pool],
    [processedHook], [filter], here [nfilter]) and its surroundings.  [mu] has no field:
    every section it guards is inside one atomic step. *)
Record World : Type := {
  params : URLNotifierParams;
  dropped : Z;
  processedHook : option Hook;
  nfilter : FilterParams;
  (* the pool: one bounded queue and one worker per partition *)
  queues : list (list Job);
  workers : list (option Frame);
  closed : bool;
  (* the surroundings *)
  heap : gmap loc livekit.WebhookEvent;
  now : Time;
  logs : list LogEntry;
  fieldsHookCalls : list livekit.WebhookInfo;
  hookCalls : list HookCall;
  httpCalls : list Request;
  closedBodies : list Response;
  history : list Obs
}.

(** *** Field updates *)

Definition set_params (w : World) (v : URLNotifierParams) : World :=
  {| params := v; dropped := dropped w; processedHook := processedHook w;
     nfilter := nfilter w; queues := queues w; workers := workers w;
     closed := closed w; heap := heap w; now := now w; logs := logs w;
     fieldsHookCalls := fieldsHookCalls w; hookCalls := hookCalls w;
     httpCalls := httpCalls w; closedBodies := closedBodies w;
     history := history w |}.

Definition set_dropped (w : World) (v : Z) : World :=
  {| params := params w; dropped := v; processedHook := processedHook w;
     nfilter := nfilter w; queues := queues w; workers := workers w;
     closed := closed w; heap := heap w; now := now w; logs := logs w;
     fieldsHookCalls := fieldsHookCalls w; hookCalls := hookCalls w;
     httpCalls := httpCalls w; closedBodies := closedBodies w;
     history := history w |}.

Definition set_processedHook (w : World) (v : option Hook) : World :=
  {| params := params w; dropped := dropped w; processedHook := v;
     nfilter := nfilter w; queues := queues w; workers := workers w;
     closed := closed w; heap := heap w; now := now w; logs := logs w;
     fieldsHookCalls := fieldsHookCalls w; hookCalls := hookCalls w;
     httpCalls := httpCalls w; closedBodies := closedBodies w;
     history := history w |}.

Definition set_nfilter (w : World) (v : FilterParams) : World :=
  {| params := params w; dropped := dropped w;
     processedHook := processedHook w; nfilter := v; queues := queues w;
     workers := workers w; closed := closed w; heap := heap w; now := now w;
     logs := logs w; fieldsHookCalls := fieldsHookCalls w;
     hookCalls := hookCalls w; httpCalls := httpCalls w;
     closedBodies := closedBodies w; history := history w |}.

Definition set_queues (w : World) (v : list (list Job)) : World :=
  {| params := params w; dropped := dropped w;
     processedHook := processedHook w; nfilter := nfilter w; queues := v;
     workers := workers w; closed := closed w; heap := heap w; now := now w;
     logs := logs w; fieldsHookCalls := fieldsHookCalls w;
     hookCalls := hookCalls w; httpCalls := httpCalls w;
     closedBodies := closedBodies w; history := history w |}.

Definition set_workers (w : World) (v : list (option Frame)) : World :=
  {| params := params w; dropped := dropped w;
     processedHook := processedHook w; nfilter := nfilter w;
     queues := queues w; workers := v; closed := closed w; heap := heap w;
     now := now w; logs := logs w; fieldsHookCalls := fieldsHookCalls w;
     hookCalls := hookCalls w; httpCalls := httpCalls w;
     closedBodies := closedBodies w; history := history w |}.

Definition set_closed (w : World) (v : bool) : World :=
  {| params := params w; dropped := dropped w;
     processedHook := processedHook w; nfilter := nfilter w;
     queues := queues w; workers := workers w; closed := v; heap := heap w;
     now := now w; logs := logs w; fieldsHookCalls := fieldsHookCalls w;
     hookCalls := hookCalls w; httpCalls := httpCalls w;
     closedBodies := closedBodies w; history := history w |}.

Definition set_heap (w : World) (v : gmap loc livekit.WebhookEvent) : World :=
  {| params := params w; dropped := dropped w;
     processedHook := processedHook w; nfilter := nfilter w;
     queues := queues w; workers := workers w; closed := closed w; heap := v;
     now := now w; logs := logs w; fieldsHookCalls := fieldsHookCalls w;
     hookCalls := hookCalls w; httpCalls := httpCalls w;
     closedBodies := closedBodies w; history := history w |}.

Definition set_now (w : World) (v : Time) : World :=
  {| params := params w; dropped := dropped w;
     processedHook := processedHook w; nfilter := nfilter w;
     queues := queues w; workers := workers w; closed := closed w;
     heap := heap w; now := v; logs := logs w;
     fieldsHookCalls := fieldsHookCalls w; hookCalls := hookCalls w;
     httpCalls := httpCalls w; closedBodies := closedBodies w;
     history := history w |}.

Definition set_logs (w : World) (v : list LogEntry) : World :=
  {| params := params w; dropped := dropped w;
     processedHook := processedHook w; nfilter := nfilter w;
     queues := queues w; workers := workers w; closed := closed w;
     heap := heap w; now := now w; logs := v;
     fieldsHookCalls := fieldsHookCalls w; hookCalls := hookCalls w;
     httpCalls := httpCalls w; closedBodies := closedBodies w;
     history := history w |}.

Definition set_fieldsHookCalls (w : World) (v : list livekit.WebhookInfo) : World :=
  {| params := params w; dropped := dropped w;
     processedHook := processedHook w; nfilter := nfilter w;
     queues := queues w; workers := workers w; closed := closed w;
     heap := heap w; now := now w; logs := logs w; fieldsHookCalls := v;
     hookCalls := hookCalls w; httpCalls := httpCalls w;
     closedBodies := closedBodies w; history := history w |}.

Definition set_hookCalls (w : World) (v : list HookCall) : World :=
  {| params := params w; dropped := dropped w;
     processedHook := processedHook w; nfilter := nfilter w;
     queues := queues w; workers := workers w; closed := closed w;
     heap := heap w; now := now w; logs := logs w;
     fieldsHookCalls := fieldsHookCalls w; hookCalls := v;
     httpCalls := httpCalls w; closedBodies := closedBodies w;
     history := history w |}.

Definition set_httpCalls (w : World) (v : list Request) : World :=
  {| params := params w; dropped := dropped w;
     processedHook := processedHook w; nfilter := nfilter w;
     queues := queues w; workers := workers w; closed := closed w;
     heap := heap w; now := now w; logs := logs w;
     fieldsHookCalls := fieldsHookCalls w; hookCalls := hookCalls w;
     httpCalls := v; closedBodies := closedBodies w; history := history w |}.

Definition set_closedBodies (w : World) (v : list Response) : World :=
  {| params := params w; dropped := dropped w;
     processedHook := processedHook w; nfilter := nfilter w;
     queues := queues w; workers := workers w; closed := closed w;
     heap := heap w; now := now w; logs := logs w;
     fieldsHookCalls := fieldsHookCalls w; hookCalls := hookCalls w;
     httpCalls := httpCalls w; closedBodies := v; history := history w |}.

Definition set_history (w : World) (v : list Obs) : World :=
  {| params := params w; dropped := dropped w;
     processedHook := processedHook w; nfilter := nfilter w;
     queues := queues w; workers := workers w; closed := closed w;
     heap := heap w; now := now w; logs := logs w;
     fieldsHookCalls := fieldsHookCalls w; hookCalls := hookCalls w;
     httpCalls := httpCalls w; closedBodies := closedBodies w;
     history := v |}.

Definition observe (w : World) (o : Obs) : World :=
  set_history w (history w ++ [o]).

(** *** The atomic counter [dropped atomic.Int32] *)

(** [n.dropped.Swap(v)]: the old value and the world with the new one. *)
Definition dropped_Swap (w : World) (v : Z) : Z * World :=
  (dropped w, set_dropped w v).

(** [n.dropped.Add(delta)] *)
Definition dropped_Add (w : World) (delta : Z) : World :=
  set_dropped w (wrap32 (dropped w + delta)).

(** [n.dropped.Inc()] *)
Definition dropped_Inc (w : World) : World := dropped_Add w 1.

(** *** The logger and the hooks *)

Definition Logger_Infow (w : World) (msg : string) (fields : list LogValue) : World :=
  set_logs w (logs w ++
    [{| log_level := Infow; log_msg := msg; log_err := None; log_fields := fields |}]).

Definition Logger_Warnw (w : World) (msg : string) (err : error)
    (fields : list LogValue) : World :=
  set_logs w (logs w ++
    [{| log_level := Warnw; log_msg := msg; log_err := Some err; log_fields := fields |}]).

(** [if n.params.FieldsHook != nil { n.params.FieldsHook(whi) }]: the
    outcome as the hook leaves it; the call is recorded. *)
Definition apply_FieldsHook (w : World) (whi : livekit.WebhookInfo)
  : World * livekit.WebhookInfo :=
  match FieldsHook (params w) with
  | Some f => (set_fieldsHookCalls w (fieldsHookCalls w ++ [whi]), f whi)
  | None => (w, whi)
  end.

(** [ph(ctx, whi)] *)
Definition call_hook (w : World) (ph : Hook) (ctx : Ctx) (whi : livekit.WebhookInfo) : World :=
  set_hookCalls w (hookCalls w ++ [{| hc_hook := ph; hc_ctx := ctx; hc_info := whi |}]).

(** *** Configuration *)

Definition SetKeys (w : World) (apiKey apiSecret : string) : World :=
  set_params w
    {| QueueSize := QueueSize (params w); URL := URL (params w);
       APIKey := apiKey; APISecret := apiSecret;
       FieldsHook := FieldsHook (params w); Filter := Filter (params w) |}.

Definition SetFilter (w : World) (f : FilterParams) : World := set_nfilter w f.

Definition RegisterProcessedHook (w : World) (hook : option Hook) : World :=
  set_processedHook w hook.

Definition getProcessedHook (w : World) : option Hook := processedHook w.

(** *** The worker pool

    Modelled from the spec: [core.QueuePool] is a library the notifier is
    built on.  The spec gives its contract: a fixed number of partitions,
    the key hashed to pick one, a bounded queue per partition, [Submit]
    that returns [false] at once when that queue is at capacity (or when
    the pool no longer accepts work), the jobs of a partition run one at a
    time in the order of submission, [Drain] that stops intake and lets
    the queued and running jobs finish, [Kill] that discards the queued
    jobs. *)

Definition partition_of (E : Env) (key : string) : nat :=
  (pool_hash E key mod numWorkers)%nat.

Definition pool_Submit (E : Env) (w : World) (j : Job) : World * bool :=
  let i := partition_of E (job_key j) in
  match queues w !! i with
  | Some q =>
      if closed w || (QueueSize (params w) <=? Z.of_nat (length q))
      then (w, false)
      else (observe (set_queues w (<[i := q ++ [j]]> (queues w))) (OAccepted j), true)
  | None => (w, false)
  end.

Definition pool_Drain (w : World) : World := set_closed w true.

Definition pool_Kill (w : World) : World :=
  set_closed (set_queues w ((fun _ => []) <$> queues w)) true.

(** [Drain] blocks its caller until the pool is at rest. *)
Definition at_rest (w : World) : Prop :=
  Forall (fun q => q = []) (queues w) /\ Forall (fun f => f = None) (workers w).

(** *** [NewURLNotifier] *)

Definition NewURLNotifier (p : URLNotifierParams)
    (h : gmap loc livekit.WebhookEvent) (t : Time) : World :=
  let p' :=
    {| QueueSize := if QueueSize p =? 0 then defaultQueueSize else QueueSize p;
       URL := URL p; APIKey := APIKey p; APISecret := APISecret p;
       FieldsHook := FieldsHook p; Filter := Filter p |} in
  {| params := p'; dropped := 0; processedHook := None; nfilter := Filter p;
     queues := replicate numWorkers []; workers := replicate numWorkers None;
     closed := false; heap := h; now := t; logs := []; fieldsHookCalls := [];
     hookCalls := []; httpCalls := []; closedBodies := []; history := [] |}.

(** *** [send] *)

(** [retryablehttp.NewRequest(method, url, body)] *)
Definition NewRequest (E : Env) (method url : string) (body : bytes) : Result Request :=
  match NewRequest_error E method url with
  | Some err => Err err
  | None => Ok {| req_method := method; req_url := url; req_body := body;
                  req_header := [] |}
  end.

(** The first statement of [send]:
    [event.NumDropped = n.dropped.Swap(0)]. *)
Definition send_swap (w : World) (event : loc) : option World :=
  match heap w !! event with
  | None => None
  | Some e =>
      let '(old, w1) := dropped_Swap w 0 in
      let w2 := set_heap w1 (<[event := livekit.set_NumDropped e old]> (heap w1)) in
      Some (observe w2 (OSwap event old))
  end.

(** The access token [send] builds for a payload. *)
Definition signing_token (E : Env) (w : World) (encoded : bytes) : AccessToken :=
  let sum := sha256_Sum256 E encoded in
  let b64 := base64_EncodeToString E sum in
  let apiKey := APIKey (params w) in
  let apiSecret := APISecret (params w) in
  SetSha256 (SetValidFor (NewAccessToken apiKey apiSecret) (5 * time_Minute)) b64.

(** The rest of [send], from [protojson.Marshal] on. *)
Definition send_rest (E : Env) (w : World) (event : loc) : option (World * option error) :=
  match heap w !! event with
  | None => None
  | Some e =>
      match protojson_Marshal E e with
      | Err err => Some (w, Some err)
      | Ok encoded =>
          match AccessToken_ToJWT E (signing_token E w encoded) (now w) with
          | Err err => Some (w, Some err)
          | Ok token =>
              match NewRequest E "POST" (URL (params w)) encoded with
              | Err err => Some (w, Some err)
              | Ok r =>
                  let r1 := Header_Set r (authHeader E) token in
                  let r2 := Header_Set r1 "content-type" "application/webhook+json" in
                  let w1 := set_httpCalls w (httpCalls w ++ [r2]) in
                  match client_Do E (length (httpCalls w)) r2 with
                  | Err err => Some (w1, Some err)
                  | Ok res =>
                      let w2 := set_closedBodies w1 (closedBodies w1 ++ [res]) in
                      Some (observe w2 (OSent event e r2), None)
                  end
              end
          end
      end
  end.

(** [func (n *URLNotifier) send(event *livekit.WebhookEvent) error];
    [None] is the panic of a nil dereference. *)
Definition send (E : Env) (w : World) (event : loc) : option (World * option error) :=
  match send_swap w event with
  | None => None
  | Some w1 => send_rest E w1 event
  end.

(** *** The closure submitted by [QueueNotify] *)

(** Up to the call of [send]. *)
Definition task_prologue (E : Env) (w : World) (j : Job) : option Frame :=
  match heap w !! job_event j with
  | None => None
  | Some e =>
      let fields := logFields E e (URL (params w)) in
      let queueDuration := now w - job_enqueuedAt j in
      let fields := fields ++ [LVString "queueDuration"; LVDuration queueDuration] in
      let sendStart := now w in
      Some {| fr_job := j; fr_fields := fields;
              fr_queueDuration := queueDuration; fr_sendStart := sendStart |}
  end.

(** After [send] has returned [err]. *)
Definition task_epilogue (w : World) (fr : Frame) (err : option error) : option World :=
  let j := fr_job fr in
  match heap w !! job_event j with
  | None => None
  | Some e =>
      let sendDuration := now w - fr_sendStart fr in
      let fields := fr_fields fr ++ [LVString "sendDuration"; LVDuration sendDuration] in
      let w1 :=
        match err with
        | Some er =>
            let w' := Logger_Warnw w "failed to send webhook" er fields in
            observe (dropped_Add w' (wrap32 (livekit.NumDropped e + 1)))
                    (OFailed (job_event j))
        | None => Logger_Infow w "sent webhook" fields
        end in
      match getProcessedHook w1 with
      | Some ph =>
          let whi := webhookInfo e (job_enqueuedAt j) (fr_queueDuration fr)
                       (fr_sendStart fr) sendDuration (URL (params w1)) false err in
          let '(w2, whi') := apply_FieldsHook w1 whi in
          Some (call_hook w2 ph (job_ctx j) whi')
      | None => Some w1
      end
  end.

(** The whole closure, run without interruption. *)
Definition task (E : Env) (w : World) (j : Job) : option World :=
  match task_prologue E w j with
  | None => None
  | Some fr =>
      match send E w (job_event j) with
      | None => None
      | Some (w1, err) => task_epilogue w1 fr err
      end
  end.

(** *** [QueueNotify] and [Stop] *)

Definition QueueNotify (E : Env) (w : World) (ctx : Ctx) (event : loc)
  : option (World * option error) :=
  match heap w !! event with
  | None => None
  | Some e =>
      if negb (filter_IsAllowed E (nfilter w) (livekit.Event e)) then Some (w, None)
      else
        let enqueuedAt := now w in
        let key := eventKey E e in
        let job := {| job_key := key; job_ctx := ctx; job_event := event;
                      job_enqueuedAt := enqueuedAt |} in
        match pool_Submit E w job with
        | (w1, true) => Some (w1, None)
        | (w1, false) =>
            let w2 := observe (dropped_Inc w1) (ORejected job) in
            let fields := logFields E e (URL (params w2)) in
            let w3 := Logger_Infow w2 "dropped webhook" fields in
            match getProcessedHook w3 with
            | Some ph =>
                let whi := webhookInfo e zeroTime 0 zeroTime 0
                             (URL (params w3)) true None in
                let '(w4, whi') := apply_FieldsHook w3 whi in
                Some (call_hook w4 ph ctx whi', None)
            | None => Some (w3, None)
            end
        end
  end.

Definition Stop (w : World) (force : bool) : World :=
  observe (if force then pool_Kill w else pool_Drain w) (OStopped force).

(** ** Interleaving

    One [action] is one atomic step of one goroutine.  A worker runs a
    closure in two steps, so that other goroutines can run while it is
    inside [send]: [ABegin] takes the job at the head of the queue and
    runs it up to and including the swap of the counter, [AEnd] runs the
    rest. *)
Inductive action : Type :=
| ANotify (ctx : Ctx) (event : loc)
| ABegin (i : nat)
| AEnd (i : nat)
| ATick (d : Duration)
| ASetKeys (apiKey apiSecret : string)
| ASetFilter (f : FilterParams)
| ARegisterProcessedHook (hook : option Hook)
| AStop (force : bool).

Definition worker_begin (E : Env) (w : World) (i : nat) : option World :=
  match queues w !! i, workers w !! i with
  | Some (j :: q), Some None =>
      match task_prologue E w j with
      | None => None
      | Some fr =>
          let w1 := set_queues w (<[i := q]> (queues w)) in
          let w2 := set_workers w1 (<[i := Some fr]> (workers w1)) in
          send_swap (observe w2 (OStarted i j)) (job_event j)
      end
  | _, _ => None
  end.

Definition worker_end (E : Env) (w : World) (i : nat) : option World :=
  match workers w !! i with
  | Some (Some fr) =>
      match send_rest E w (job_event (fr_job fr)) with
      | None => None
      | Some (w1, err) =>
          match task_epilogue w1 fr err with
          | None => None
          | Some w2 =>
              Some (observe (set_workers w2 (<[i := None]> (workers w2)))
                            (OFinished i (fr_job fr)))
          end
      end
  | _ => None
  end.

Definition step (E : Env) (w : World) (a : action) : option World :=
  match a with
  | ANotify ctx event => fst <$> QueueNotify E w ctx event
  | ABegin i => worker_begin E w i
  | AEnd i => worker_end E w i
  | ATick d => Some (set_now w (now w + d))
  | ASetKeys k s => Some (SetKeys w k s)
  | ASetFilter f => Some (SetFilter w f)
  | ARegisterProcessedHook h => Some (RegisterProcessedHook w h)
  | AStop force => Some (Stop w force)
  end.

Fixpoint run (E : Env) (w : World) (tr : list action) : option World :=
  match tr with
  | [] => Some w
  | a :: tr' =>
      match step E w a with
      | None => None
      | Some w' => run E w' tr'
      end
  end.

(** Sends are single-threaded when no worker begins a job while another
    is inside [send]. *)
Fixpoint single_sender (inflight : bool) (tr : list action) : bool :=
  match tr with
  | [] => true
  | ABegin _ :: tr' => negb inflight && single_sender true tr'
  | AEnd _ :: tr' => single_sender false tr'
  | _ :: tr' => single_sender inflight tr'
  end.

(** ** Counting drops on the history

    What the endpoint is told, said on the observations alone: going back
    in time from a point of the history, the drops (rejected submissions
    and failed sends) met before the point where the counter was read for
    a send that succeeded.  [sent] says that the success of the send whose
    read comes next has been met. *)
Fixpoint drops_back (sent : bool) (rh : list Obs) : Z :=
  match rh with
  | [] => 0
  | ORejected _ :: rh' => 1 + drops_back sent rh'
  | OFailed _ :: rh' => 1 + drops_back false rh'
  | OSent _ _ _ :: rh' => drops_back true rh'
  | OSwap _ _ :: rh' => if sent then 0 else drops_back false rh'
  | _ :: rh' => drops_back sent rh'
  end.

(** The drops recorded after the read of the last successful send of the
    history [h] (all of them when there is none). *)
Definition drops_since_sent (h : list Obs) : Z := drops_back false (rev h).

(** Observations a producer leaves: they may fall between the read of
    the counter and the end of a send. *)
Definition of_producer (o : Obs) : bool :=
  match o with
  | OAccepted _ | ORejected _ | OStopped _ => true
  | _ => false
  end.

(** The jobs accepted, started and finished, in order. *)
Definition accepted_jobs (h : list Obs) : list Job :=
  omap (fun o => match o with OAccepted j => Some j | _ => None end) h.

Definition started_jobs (h : list Obs) : list Job :=
  omap (fun o => match o with OStarted _ j => Some j | _ => None end) h.

Definition finished_jobs (h : list Obs) : list Job :=
  omap (fun o => match o with OFinished _ j => Some j | _ => None end) h.

Definition with_key (k : string) (l : list Job) : list Job :=
  List.filter (fun j => String.eqb (job_key j) k) l.

(** ** A small world to run the definitions in *)

Module Demo.

Definition allowed (f : FilterParams) (ev : string) : bool :=
  negb (existsb (String.eqb ev) (ExcludeEvents f)).

Definition key (e : livekit.WebhookEvent) : string :=
  match livekit.Room e with
  | Some 1%positive => "a"
  | Some _ => "bb"
  | None => "default"
  end.

Definition marshal (e : livekit.WebhookEvent) : Result bytes :=
  if String.eqb (livekit.Id e) "" then Err "proto: invalid UTF-8"
  else Ok (String.list_byte_of_string (livekit.Id e)
           ++ [Byte.x3a; if livekit.NumDropped e =? 0 then Byte.x30 else Byte.x31]).

Definition jwt (a : AccessToken) (t : Time) : Result string :=
  if String.eqb (at_secret a) "" then Err "secret is required"
  else Ok (at_apiKey a ++ "." ++ at_sha256 a)%string.

(** The endpoint is down for the first [down] requests. *)
Definition env (down : nat) : Env :=
  {| filter_IsAllowed := allowed;
     eventKey := key;
     logFields := fun e url => [LVString "event"; LVString (livekit.Event e);
                                LVString "url"; LVString url];
     authHeader := "Authorization";
     protojson_Marshal := marshal;
     sha256_Sum256 := fun b => rev b;
     base64_EncodeToString := String.string_of_list_byte;
     AccessToken_ToJWT := jwt;
     NewRequest_error := fun m url => if String.eqb url "" then Some "empty url" else None;
     client_Do := fun n r =>
       if (n <? down)%nat then Err "giving up after 4 attempt(s)"
       else Ok {| res_status := 200; res_body := [] |};
     pool_hash := String.length |}.

Definition event (ty id : string) (room : positive) : livekit.WebhookEvent :=
  {| livekit.Event := ty; livekit.Room := Some room; livekit.Participant := None;
     livekit.EgressInfo := None; livekit.IngressInfo := None;
     livekit.Track := None; livekit.Id := id; livekit.CreatedAt := 1700000000;
     livekit.NumDropped := 0 |}.

Definition events : gmap loc livekit.WebhookEvent :=
  {[ 1%positive := event "room_started" "EV_1" 1;
     2%positive := event "participant_joined" "EV_2" 1;
     3%positive := event "track_published" "EV_3" 1;
     4%positive := event "room_started" "EV_4" 2;
     5%positive := event "room_finished" "EV_5" 1 ]}.

(** A fields hook that rewrites the outcome it is given. *)
Definition relabel (whi : livekit.WebhookInfo) : livekit.WebhookInfo :=
  {| livekit.QueuedAt := 7;
     livekit.QueueDurationNs := livekit.QueueDurationNs whi;
     livekit.SentAt := livekit.SentAt whi;
     livekit.SendDurationNs := livekit.SendDurationNs whi;
     livekit.Url := livekit.Url whi;
     livekit.IsDropped := false;
     livekit.SendError := livekit.SendError whi |}.

Definition config (size : Z)
    (fh : option (livekit.WebhookInfo -> livekit.WebhookInfo)) : URLNotifierParams :=
  {| QueueSize := size; URL := "http://localhost/hook"; APIKey := "key";
     APISecret := "secret"; FieldsHook := fh;
     Filter := {| IncludeEvents := []; ExcludeEvents := ["track_published"] |} |}.

Definition world (size : Z)
    (fh : option (livekit.WebhookInfo -> livekit.WebhookInfo)) : World :=
  RegisterProcessedHook (NewURLNotifier (config size fh) events 1000) (Some 1%nat).


(** An outage: the queue of the room holds one job; the second event of
    the room is turned down, the first send fails, the third event is
    sent once the endpoint is back. *)
Definition job (p : positive) : Job :=
  {| job_key := "a"; job_ctx := 0%nat; job_event := p; job_enqueuedAt := 1000 |}.

Definition outage : list action :=
  [ARegisterProcessedHook (Some 1%nat);
   ANotify 0%nat 1%positive; ANotify 0%nat 2%positive;
   ABegin 1; AEnd 1;
   ANotify 0%nat 5%positive; ABegin 1; AEnd 1].


(** The queue of the room's partition holds one job, which is its
    capacity. *)
Definition full : World :=
  set_queues (world 1 None) (<[1%nat := [job 1]]> (queues (world 1 None))).

(** Two rooms, two partitions: the event of the second room is sent
    first. *)
Definition job_bb (p : positive) : Job :=
  {| job_key := "bb"; job_ctx := 0%nat; job_event := p; job_enqueuedAt := 1000 |}.

Definition two_rooms : list action :=
  [ANotify 0%nat 1%positive; ANotify 0%nat 4%positive;
   ABegin 2; AEnd 2; ABegin 1; AEnd 1].

(** Three events of a room are queued, the first is being sent. *)
Definition backlog : list action :=
  [ANotify 0%nat 1%positive; ANotify 0%nat 2%positive; ANotify 0%nat 5%positive;
   ABegin 1].

End Demo.

(** ** Vocabulary of the statements *)

(** The job [QueueNotify] builds for an event. *)
Definition job_of (E : Env) (w : World) (ctx : Ctx) (event : loc)
    (e : livekit.WebhookEvent) : Job :=
  {| job_key := eventKey E e; job_ctx := ctx; job_event := event;
     job_enqueuedAt := now w |}.

(** The submission is turned down: the pool is closed or the queue of
    the partition is at capacity. *)
Definition turned_down (E : Env) (w : World) (e : livekit.WebhookEvent) : Prop :=
  match queues w !! partition_of E (eventKey E e) with
  | Some q => closed w = true \/ QueueSize (params w) <= Z.of_nat (length q)
  | None => True
  end.

(** The causes for which [send] fails on the event [e] (as it is after
    the swap) in the world [w]. *)
Definition serialization_fails (E : Env) (e : livekit.WebhookEvent) : Prop :=
  exists err, protojson_Marshal E e = Err err.

Definition signing_fails (E : Env) (w : World) (e : livekit.WebhookEvent) : Prop :=
  exists encoded err,
    protojson_Marshal E e = Ok encoded
    /\ AccessToken_ToJWT E (signing_token E w encoded) (now w) = Err err.

Definition request_fails (E : Env) (w : World) (e : livekit.WebhookEvent) : Prop :=
  exists encoded err,
    protojson_Marshal E e = Ok encoded
    /\ NewRequest E "POST" (URL (params w)) encoded = Err err.

(** The request [send] hands to the client for a payload and a token. *)
Definition signed_request (E : Env) (w : World) (encoded : bytes) (token : string)
  : Request :=
  Header_Set
    (Header_Set {| req_method := "POST"; req_url := URL (params w);
                   req_body := encoded; req_header := [] |}
                (authHeader E) token)
    "content-type" "application/webhook+json".

Definition transport_fails (E : Env) (w : World) (e : livekit.WebhookEvent) : Prop :=
  exists encoded token err,
    protojson_Marshal E e = Ok encoded
    /\ AccessToken_ToJWT E (signing_token E w encoded) (now w) = Ok token
    /\ client_Do E (length (httpCalls w)) (signed_request E w encoded token) = Err err.

(** The outcome [QueueNotify] builds for an event it could not queue. *)
Definition dropped_outcome (w : World) (e : livekit.WebhookEvent) : livekit.WebhookInfo :=
  webhookInfo e zeroTime 0 zeroTime 0 (URL (params w)) true None.

(** The outcome as the processed hook receives it. *)
Definition through_FieldsHook (w : World) (whi : livekit.WebhookInfo)
  : livekit.WebhookInfo :=
  match FieldsHook (params w) with
  | Some f => f whi
  | None => whi
  end.

(** The drops among some observations: submissions turned down and sends
    that failed. *)
Fixpoint count_drops (l : list Obs) : Z :=
  match l with
  | [] => 0
  | ORejected _ :: l' => 1 + count_drops l'
  | OFailed _ :: l' => 1 + count_drops l'
  | _ :: l' => count_drops l'
  end.

Definition is_sent (o : Obs) : bool :=
  match o with OSent _ _ _ => true | _ => false end.

(** The rejected submissions among some observations. *)
Fixpoint rejections (l : list Obs) : Z :=
  match l with
  | [] => 0
  | ORejected _ :: l' => 1 + rejections l'
  | _ :: l' => rejections l'
  end.

(** What the claim on [num_dropped] says of a history: every send that
    succeeded ([OSent]) comes after the read of the counter by that send
    ([OSwap], with only producers in between), the event it sent carries
    the value read, and that value is the number of drops since the read
    of the last successful send before it, as an [int32]. *)
Definition reports_exact (h : list Obs) : Prop :=
  forall a q e r h2,
    h = a ++ OSent q e r :: h2 ->
    exists h1 mid,
      a = h1 ++ OSwap q (livekit.NumDropped e) :: mid
      /\ forallb of_producer mid = true
      /\ livekit.NumDropped e = wrap32 (drops_since_sent h1).

(** No worker is inside [send]. *)
Definition idle (w : World) : Prop :=
  forall i fr, workers w !! i <> Some (Some fr).

(** Worker [i] is inside [send], with the locals [fr], and no other. *)
Definition one_busy (w : World) (i : nat) (fr : Frame) : Prop :=
  workers w !! i = Some (Some fr)
  /\ forall i' fr', workers w !! i' = Some (Some fr') -> i' = i.

(** The invariant of the counter under single-threaded sends; [b] says
    whether a send is under way. *)
Definition counter_inv (b : bool) (w : World) : Prop :=
  reports_exact (history w)
  /\ if b then
       exists i fr e h1 rest,
         one_busy w i fr
         /\ heap w !! job_event (fr_job fr) = Some e
         /\ history w = h1 ++ OSwap (job_event (fr_job fr)) (livekit.NumDropped e) :: rest
         /\ forallb of_producer rest = true
         /\ dropped w = wrap32 (rejections rest)
         /\ livekit.NumDropped e = wrap32 (drops_since_sent h1)
     else idle w /\ dropped w = wrap32 (drops_since_sent (history w)).

Definition next_flag (b : bool) (a : action) : bool :=
  match a with
  | ABegin _ => true
  | AEnd _ => false
  | _ => b
  end.

(** The payload of every send that succeeded is the encoding of the
    event recorded with it. *)
Definition sent_as_encoded (E : Env) (h : list Obs) : Prop :=
  forall p e r, In (OSent p e r) h -> protojson_Marshal E e = Ok (req_body r).

(** The jobs waiting in the queue of partition [i], and the job its
    worker is running. *)
Definition queue_of (w : World) (i : nat) : list Job := default [] (queues w !! i).

Definition running_of (w : World) (i : nat) : list Job :=
  match workers w !! i with
  | Some (Some fr) => [fr_job fr]
  | _ => []
  end.

(** The jobs worker [i] has finished, in order. *)
Definition finished_by (i : nat) (h : list Obs) : list Job :=
  omap (fun o => match o with
                 | OFinished i' j => if decide (i' = i) then Some j else None
                 | _ => None
                 end) h.

(** No [Stop(true)] among the actions. *)
Fixpoint no_kill (tr : list action) : bool :=
  match tr with
  | [] => true
  | AStop true :: _ => false
  | _ :: tr' => no_kill tr'
  end.

(** The pool is well formed: a worker per queue, and the event of every
    job that waits or runs is a live heap cell. *)
Definition pool_wf (w : World) : Prop :=
  length (queues w) = length (workers w)
  /\ (forall i q, queues w !! i = Some q ->
        Forall (fun j => is_Some (heap w !! job_event j)) q)
  /\ (forall i fr, workers w !! i = Some (Some fr) ->
        is_Some (heap w !! job_event (fr_job fr))).

(** The invariant of the ordering: every job waits or runs in the
    partition of its key, and for every key the accepted jobs are those
    started, then those waiting, then those a [Kill] discarded; the
    started ones are those finished, then the one running. *)
Definition fifo_inv (E : Env) (w : World) : Prop :=
  (forall i q, queues w !! i = Some q ->
     Forall (fun j => partition_of E (job_key j) = i) q)
  /\ (forall i fr, workers w !! i = Some (Some fr) ->
        partition_of E (job_key (fr_job fr)) = i)
  /\ forall k,
       (exists rest,
          with_key k (accepted_jobs (history w))
          = with_key k (started_jobs (history w))
            ++ with_key k (queue_of w (partition_of E k)) ++ rest
          /\ (closed w = false -> rest = []))
       /\ with_key k (started_jobs (history w))
          = with_key k (finished_jobs (history w))
            ++ with_key k (running_of w (partition_of E k)).

(** ** Vocabulary of the further properties *)

(** The log line of a closure that has sent with the error [err]. *)
Definition send_log (fr : Frame) (t : Time) (err : option error) : LogEntry :=
  let fields := fr_fields fr ++ [LVString "sendDuration"; LVDuration (t - fr_sendStart fr)] in
  match err with
  | Some er => {| log_level := Warnw; log_msg := "failed to send webhook";
                  log_err := Some er; log_fields := fields |}
  | None => {| log_level := Infow; log_msg := "sent webhook";
               log_err := None; log_fields := fields |}
  end.

(** The outcome a closure builds once [send] has returned [err]. *)
Definition sent_outcome (w : World) (fr : Frame) (e : livekit.WebhookEvent)
    (err : option error) : livekit.WebhookInfo :=
  webhookInfo e (job_enqueuedAt (fr_job fr)) (fr_queueDuration fr) (fr_sendStart fr)
    (now w - fr_sendStart fr) (URL (params w)) false err.

(** The calls of the hooks for one outcome: none without a processed
    hook, the fields hook only when both are there. *)
Definition hook_call (w : World) (ctx : Ctx) (whi : livekit.WebhookInfo) : list HookCall :=
  match processedHook w with
  | Some ph => [{| hc_hook := ph; hc_ctx := ctx; hc_info := through_FieldsHook w whi |}]
  | None => []
  end.

Definition fields_call (w : World) (whi : livekit.WebhookInfo) : list livekit.WebhookInfo :=
  match processedHook w, FieldsHook (params w) with
  | Some _, Some _ => [whi]
  | _, _ => []
  end.







(** What every request of a notifier built for [url] looks like. *)
Definition webhook_request (E : Env) (url : string) (r : Request) : Prop :=
  req_method r = "POST" /\ req_url r = url
  /\ Header_Get r "content-type" = Some "application/webhook+json"
  /\ exists e, protojson_Marshal E e = Ok (req_body r).

(** The capacity [NewURLNotifier] gives the queues. *)
Definition capacity (p : URLNotifierParams) : Z :=
  if QueueSize p =? 0 then defaultQueueSize else QueueSize p.

(** The invariant: the capacity is the one given at construction, there
    is a queue and a worker for each of the [numWorkers] partitions, and
    no queue is longer than the capacity. *)
Definition bounded (cap : Z) (w : World) : Prop :=
  QueueSize (params w) = cap
  /\ length (queues w) = numWorkers /\ length (workers w) = numWorkers
  /\ forall i q, queues w !! i = Some q -> Z.of_nat (length q) <= Z.max 0 cap.





(** The invariant of the requests of a notifier built for [url]. *)
Definition requests_inv (E : Env) (url : string) (w : World) : Prop :=
  URL (params w) = url /\ Forall (webhook_request E url) (httpCalls w).


(** Neither a submission nor a change of the filter. *)
Definition leaves_filter (a : action) : bool :=
  match a with
  | ANotify _ _ | ASetFilter _ => false
  | _ => true
  end.




(** The events whose sending has begun, among some observations. *)
Definition started_events (hs : list Obs) : list loc :=
  omap (fun o => match o with OStarted _ j => Some (job_event j) | _ => None end) hs.

(** What the notifier may have done to the cell [o] of the heap. *)
Definition NumDropped_written (o o' : option livekit.WebhookEvent) : Prop :=
  match o with
  | Some e => exists n, o' = Some (livekit.set_NumDropped e n)
  | None => o' = None
  end.

(** The invariant of the heap since the world [w0]. *)
Definition heap_inv (w0 w : World) : Prop :=
  exists hs,
    history w = history w0 ++ hs
    /\ forall p,
         (p ∉ started_events hs -> heap w !! p = heap w0 !! p)
         /\ NumDropped_written (heap w0 !! p) (heap w !! p).

(** The drops the endpoint has been told of: the [num_dropped] of the
    events sent. *)
Fixpoint reported (l : list Obs) : Z :=
  match l with
  | [] => 0
  | OSent _ e _ :: l' => livekit.NumDropped e + reported l'
  | _ :: l' => reported l'
  end.

(** The drops a worker holds while it is inside [send]: the value it
    swapped out of the counter into its event. *)
Definition held_by (h : gmap loc livekit.WebhookEvent) (f : option Frame) : Z :=
  match f with
  | Some fr =>
      match h !! job_event (fr_job fr) with
      | Some e => livekit.NumDropped e
      | None => 0
      end
  | None => 0
  end.

Definition held (w : World) : Z := foldr Z.add 0 (held_by (heap w) <$> workers w).

(** A job of partition [i] whose key is the key of its event. *)
Definition keyed (E : Env) (w : World) (i : nat) (j : Job) : Prop :=
  partition_of E (job_key j) = i
  /\ exists e, heap w !! job_event j = Some e /\ job_key j = eventKey E e.

(** The invariant of the counter under concurrent sends: the jobs that
    wait or run are keyed, and the drops are all in the counter, in the
    event of a send under way or reported, as [int32]s. *)
Definition ledger_inv (E : Env) (w : World) : Prop :=
  (forall i q, queues w !! i = Some q -> Forall (keyed E w i) q)
  /\ (forall i fr, workers w !! i = Some (Some fr) -> keyed E w i (fr_job fr))
  /\ wrap32 (dropped w + held w + reported (history w))
     = wrap32 (count_drops (history w)).




(** * Properties *)

(** ** Arithmetic of the counter *)

Lemma wrap32_id (x : Z) : in_int32 x -> wrap32 x = x.
Proof.
  unfold in_int32, int32_min, int32_max, wrap32. intros H.
  rewrite Z.mod_small; lia.
Qed.

Lemma wrap32_range (x : Z) : in_int32 (wrap32 x).
Proof.
  unfold in_int32, int32_min, int32_max, wrap32.
  pose proof (Z.mod_pos_bound (x + 2147483648) 4294967296). lia.
Qed.

Lemma wrap32_add_l (a b : Z) : wrap32 (wrap32 a + b) = wrap32 (a + b).
Proof.
  unfold wrap32. f_equal.
  replace ((a + 2147483648) mod 4294967296 - 2147483648 + b + 2147483648)
    with ((a + 2147483648) mod 4294967296 + b) by lia.
  rewrite Zplus_mod_idemp_l. f_equal. lia.
Qed.

Lemma wrap32_add_r (a b : Z) : wrap32 (a + wrap32 b) = wrap32 (a + b).
Proof. rewrite (Z.add_comm a), wrap32_add_l. f_equal. lia. Qed.

(** One more than the largest [int32] is the smallest. *)
Example wrap32_overflow : wrap32 (int32_max + 1) = int32_min.
Proof. reflexivity. Qed.

(** ** What [QueueNotify] does, path by path *)

Lemma pool_Submit_false E w j w1 :
  pool_Submit E w j = (w1, false) -> w1 = w.
Proof.
  unfold pool_Submit. repeat case_match; congruence.
Qed.

Lemma pool_Submit_turned_down E w ctx event e :
  turned_down E w e ->
  pool_Submit E w (job_of E w ctx event e) = (w, false).
Proof.
  unfold turned_down, pool_Submit, job_of; simpl.
  destruct (queues w !! partition_of E (eventKey E e)) as [q|]; [|done].
  intros [-> | H]; [done|].
  destruct (closed w); simpl; [done|].
  destruct (Z.leb_spec (QueueSize (params w)) (Z.of_nat (length q))); [done|lia].
Qed.

Lemma pool_Submit_true E w j w1 :
  pool_Submit E w j = (w1, true) ->
  exists q, queues w !! partition_of E (job_key j) = Some q
    /\ closed w = false
    /\ Z.of_nat (length q) < QueueSize (params w)
    /\ w1 = observe (set_queues w (<[partition_of E (job_key j) := q ++ [j]]> (queues w)))
                    (OAccepted j).
Proof.
  unfold pool_Submit.
  destruct (queues w !! partition_of E (job_key j)) as [q|]; [|congruence].
  destruct (closed w); simpl; [congruence|].
  destruct (Z.leb_spec (QueueSize (params w)) (Z.of_nat (length q))); [congruence|].
  intros [= <-]. exists q. auto.
Qed.

(** C2: an event whose type the filter does not allow leaves
    [QueueNotify] at once: it returns [nil] and the world is the one it
    was called in, so nothing was queued, sent, counted, logged or handed
    to the processed hook or the fields hook. *)
Theorem QueueNotify_filtered_no_effect (E : Env) (w : World) (ctx : Ctx)
    (event : loc) (e : livekit.WebhookEvent) :
  heap w !! event = Some e ->
  filter_IsAllowed E (nfilter w) (livekit.Event e) = false ->
  QueueNotify E w ctx event = Some (w, None).
Proof.
  intros He Hf. unfold QueueNotify. rewrite He, Hf. reflexivity.
Qed.

Lemma QueueNotify_filtered_no_effect_witness :
  QueueNotify (Demo.env 0) (Demo.world 1 None) 0%nat 3%positive
  = Some (Demo.world 1 None, None).
Proof.
  apply (QueueNotify_filtered_no_effect (Demo.env 0) (Demo.world 1 None) 0%nat
           3%positive (Demo.event "track_published" "EV_3" 1));
    reflexivity.
Defined.

(** C3: whatever becomes of the event (filtered out, accepted by the
    pool or turned down by it), [QueueNotify] returns [nil]; the outcome
    of the delivery never reaches the caller. *)
Theorem QueueNotify_returns_nil (E : Env) (w : World) (ctx : Ctx)
    (event : loc) (e : livekit.WebhookEvent) :
  heap w !! event = Some e ->
  exists w', QueueNotify E w ctx event = Some (w', None).
Proof.
  intros He. unfold QueueNotify. rewrite He.
  destruct (negb _); [eauto|].
  destruct (pool_Submit _ _ _) as [w1 [|]]; [eauto|].
  destruct (getProcessedHook _); [|eauto].
  destruct (apply_FieldsHook _ _). eauto.
Qed.

Lemma QueueNotify_returns_nil_witness :
  exists w', QueueNotify (Demo.env 0) (Demo.world 1 None) 0%nat 1%positive
             = Some (w', None).
Proof.
  apply (QueueNotify_returns_nil (Demo.env 0) (Demo.world 1 None) 0%nat
           1%positive (Demo.event "room_started" "EV_1" 1)).
  reflexivity.
Defined.

(** C4, as the code has it: when the pool turns the submission down, the
    counter goes up by one (in [int32] arithmetic: by exactly one below
    the largest [int32]), nothing is queued, and a registered processed
    hook is called before [QueueNotify] returns, once, with the outcome
    built with the dropped flag set, zero timings and no error, as the
    fields hook, when there is one, leaves it: the fields hook is handed
    the outcome as built, the processed hook what the fields hook made of
    it. *)
Theorem QueueNotify_rejected (E : Env) (w : World) (ctx : Ctx)
    (event : loc) (e : livekit.WebhookEvent) :
  heap w !! event = Some e ->
  filter_IsAllowed E (nfilter w) (livekit.Event e) = true ->
  turned_down E w e ->
  exists w',
    QueueNotify E w ctx event = Some (w', None)
    /\ dropped w' = wrap32 (dropped w + 1)
    /\ (int32_min <= dropped w < int32_max -> dropped w' = dropped w + 1)
    /\ queues w' = queues w
    /\ livekit.IsDropped (dropped_outcome w e) = true
    /\ livekit.QueuedAt (dropped_outcome w e) = zeroTime
    /\ livekit.QueueDurationNs (dropped_outcome w e) = 0
    /\ livekit.SentAt (dropped_outcome w e) = zeroTime
    /\ livekit.SendDurationNs (dropped_outcome w e) = 0
    /\ livekit.SendError (dropped_outcome w e) = None
    /\ match processedHook w with
       | Some ph =>
           hookCalls w' = hookCalls w ++
             [{| hc_hook := ph; hc_ctx := ctx;
                 hc_info := through_FieldsHook w (dropped_outcome w e) |}]
       | None => hookCalls w' = hookCalls w
       end
    /\ match processedHook w, FieldsHook (params w) with
       | Some _, Some _ =>
           fieldsHookCalls w' = fieldsHookCalls w ++ [dropped_outcome w e]
       | _, _ => fieldsHookCalls w' = fieldsHookCalls w
       end
    /\ (FieldsHook (params w) = None ->
        through_FieldsHook w (dropped_outcome w e) = dropped_outcome w e).
Proof.
  intros He Hf Hd. unfold QueueNotify. rewrite He, Hf. simpl.
  fold (job_of E w ctx event e).
  rewrite (pool_Submit_turned_down E w ctx event e Hd).
  unfold getProcessedHook, apply_FieldsHook, through_FieldsHook. simpl.
  assert (Hexact : int32_min <= dropped w < int32_max ->
                   wrap32 (dropped w + 1) = dropped w + 1).
  { intros H. apply wrap32_id. unfold in_int32, int32_min, int32_max in *. lia. }
  destruct (processedHook w) as [ph|]; destruct (FieldsHook (params w)) as [f|];
    eexists; (split; [reflexivity|]); simpl; repeat split; auto; congruence.
Qed.

Lemma QueueNotify_rejected_witness :
  exists w',
    QueueNotify (Demo.env 0) Demo.full 0%nat 2%positive = Some (w', None)
    /\ dropped w' = 1
    /\ queues w' = queues Demo.full
    /\ hookCalls w' =
         [{| hc_hook := 1%nat; hc_ctx := 0%nat;
             hc_info := dropped_outcome Demo.full
                          (Demo.event "participant_joined" "EV_2" 1) |}].
Proof.
  destruct (QueueNotify_rejected (Demo.env 0) Demo.full 0%nat
              2%positive (Demo.event "participant_joined" "EV_2" 1))
    as (w' & Hq & _ & Hd & Hqs & _ & _ & _ & _ & _ & _ & Hh & _ & _).
  - reflexivity.
  - reflexivity.
  - vm_compute. right. discriminate.
  - exists w'. split; [exact Hq|]. split; [|split; [exact Hqs|exact Hh]].
    apply Hd. unfold int32_min, int32_max. simpl. lia.
Defined.

(** C4 as it is written does not hold: the fields hook is called on the
    outcome before the processed hook sees it.  Here the queue of the
    partition holds one job and is full; the second event of the room is
    dropped, and the processed hook receives an outcome whose dropped
    flag is off and whose enqueue time is not zero. *)
Lemma QueueNotify_rejected_hook_sees_rewritten_outcome :
  exists w1 w2 call,
    QueueNotify (Demo.env 0) (Demo.world 1 (Some Demo.relabel)) 0%nat 1%positive
      = Some (w1, None)
    /\ QueueNotify (Demo.env 0) w1 0%nat 2%positive = Some (w2, None)
    /\ dropped w1 = 0 /\ dropped w2 = 1
    /\ history w2 = history w1 ++ [ORejected (Demo.job 2)]
    /\ hookCalls w2 = hookCalls w1 ++ [call]
    /\ livekit.IsDropped (hc_info call) = false
    /\ livekit.QueuedAt (hc_info call) = 7.
Proof.
  do 3 eexists. split; [vm_compute; reflexivity|].
  split; [vm_compute; reflexivity|].
  repeat split.
Qed.

(** ** What [send] does *)

Lemma send_swap_spec (w : World) (event : loc) (e : livekit.WebhookEvent) :
  heap w !! event = Some e ->
  send_swap w event =
    Some (observe
            (set_heap (set_dropped w 0)
               (<[event := livekit.set_NumDropped e (dropped w)]> (heap w)))
            (OSwap event (dropped w))).
Proof. intros He. unfold send_swap. rewrite He. reflexivity. Qed.

(** The world [send] works in once it has swapped the counter. *)
Lemma send_unfold (E : Env) (w : World) (event : loc) (e : livekit.WebhookEvent) :
  heap w !! event = Some e ->
  exists w1,
    send_swap w event = Some w1
    /\ send E w event = send_rest E w1 event
    /\ heap w1 !! event = Some (livekit.set_NumDropped e (dropped w))
    /\ heap w1 = <[event := livekit.set_NumDropped e (dropped w)]> (heap w)
    /\ dropped w1 = 0 /\ params w1 = params w /\ now w1 = now w
    /\ httpCalls w1 = httpCalls w /\ closedBodies w1 = closedBodies w
    /\ history w1 = history w ++ [OSwap event (dropped w)].
Proof.
  intros He. eexists. split; [apply send_swap_spec, He|].
  unfold send. rewrite (send_swap_spec _ _ _ He). simpl.
  rewrite lookup_insert_eq. repeat split.
Qed.

(** The ways [send_rest] ends, by the answers of the surroundings. *)
Lemma send_rest_cases (E : Env) (w : World) (event : loc)
    (e : livekit.WebhookEvent) (w' : World) (err : option error) :
  heap w !! event = Some e ->
  send_rest E w event = Some (w', err) ->
  (exists er, err = Some er /\ w' = w /\ protojson_Marshal E e = Err er)
  \/ (exists er encoded, err = Some er /\ w' = w
        /\ protojson_Marshal E e = Ok encoded
        /\ AccessToken_ToJWT E (signing_token E w encoded) (now w) = Err er)
  \/ (exists er encoded token, err = Some er /\ w' = w
        /\ protojson_Marshal E e = Ok encoded
        /\ AccessToken_ToJWT E (signing_token E w encoded) (now w) = Ok token
        /\ NewRequest E "POST" (URL (params w)) encoded = Err er)
  \/ (exists er encoded token, err = Some er
        /\ w' = set_httpCalls w (httpCalls w ++ [signed_request E w encoded token])
        /\ protojson_Marshal E e = Ok encoded
        /\ AccessToken_ToJWT E (signing_token E w encoded) (now w) = Ok token
        /\ NewRequest_error E "POST" (URL (params w)) = None
        /\ client_Do E (length (httpCalls w)) (signed_request E w encoded token) = Err er)
  \/ (exists encoded token res, err = None
        /\ w' = observe
                  (set_closedBodies
                     (set_httpCalls w (httpCalls w ++ [signed_request E w encoded token]))
                     (closedBodies w ++ [res]))
                  (OSent event e (signed_request E w encoded token))
        /\ protojson_Marshal E e = Ok encoded
        /\ AccessToken_ToJWT E (signing_token E w encoded) (now w) = Ok token
        /\ NewRequest_error E "POST" (URL (params w)) = None
        /\ client_Do E (length (httpCalls w)) (signed_request E w encoded token) = Ok res).
Proof.
  intros He. unfold send_rest. rewrite He.
  destruct (protojson_Marshal E e) as [encoded|er] eqn:Hm.
  2:{ intros [= <- <-]. left. eauto. }
  destruct (AccessToken_ToJWT E _ _) as [token|er] eqn:Ht.
  2:{ intros [= <- <-]. right; left. eauto 10. }
  unfold NewRequest.
  destruct (NewRequest_error E "POST" (URL (params w))) as [er|] eqn:Hr.
  { intros [= <- <-]. right; right; left. eauto 10. }
  fold (signed_request E w encoded token).
  destruct (client_Do E _ _) as [res|er] eqn:Hc.
  - intros [= <- <-]. do 4 right. exists encoded, token, res. auto 10.
  - intros [= <- <-]. do 3 right; left. exists er, encoded, token. auto 10.
Qed.

(** [send] returns (it does not panic) whenever the pointer is valid. *)
Lemma send_rest_total (E : Env) (w : World) (event : loc) (e : livekit.WebhookEvent) :
  heap w !! event = Some e ->
  exists w' err, send_rest E w event = Some (w', err).
Proof.
  intros He. unfold send_rest. rewrite He.
  destruct (protojson_Marshal E e); [|eauto].
  destruct (AccessToken_ToJWT E _ _); [|eauto].
  destruct (NewRequest E _ _ _); [|eauto].
  destruct (client_Do E _ _); eauto.
Qed.

(** C6: [send] returns, and it returns an error exactly when the event
    cannot be serialized, the token cannot be built, the request cannot
    be built, or the client gives up; when it returns [nil] it has closed
    the body of the response, which it hands to nobody. *)
Theorem send_error_iff (E : Env) (w : World) (event : loc)
    (e : livekit.WebhookEvent) :
  heap w !! event = Some e ->
  let e' := livekit.set_NumDropped e (dropped w) in
  exists w' err,
    send E w event = Some (w', err)
    /\ (err <> None <->
          serialization_fails E e' \/ signing_fails E w e'
          \/ request_fails E w e' \/ transport_fails E w e')
    /\ (err = None ->
          exists res encoded token,
            client_Do E (length (httpCalls w)) (signed_request E w encoded token) = Ok res
            /\ closedBodies w' = closedBodies w ++ [res]).
Proof.
  intros He e'.
  destruct (send_unfold E w event e He)
    as (w1 & _ & Hs & He1 & _ & _ & Hp & Hn & Hh & Hc & _).
  fold e' in He1.
  destruct (send_rest_total E w1 event e' He1) as (w' & err & Hr).
  exists w', err. rewrite Hs. split; [exact Hr|].
  assert (Htok : forall enc, signing_token E w1 enc = signing_token E w enc).
  { intros enc. unfold signing_token. rewrite Hp. reflexivity. }
  assert (Hreq : forall enc tok, signed_request E w1 enc tok = signed_request E w enc tok).
  { intros enc tok. unfold signed_request. rewrite Hp. reflexivity. }
  unfold serialization_fails, signing_fails, request_fails, transport_fails.
  destruct (send_rest_cases E w1 event e' w' err He1 Hr)
    as [(er & -> & -> & Hm)
       |[(er & enc & -> & -> & Hm & Ht)
        |[(er & enc & tok & -> & -> & Hm & Ht & Hq)
         |[(er & enc & tok & -> & -> & Hm & Ht & Hq & Hd)
          |(enc & tok & res & -> & -> & Hm & Ht & Hq & Hd)]]]];
    rewrite ?Htok, ?Hreq, ?Hp, ?Hn, ?Hh in *.
  - split; [|congruence]. split; [eauto|congruence].
  - split; [|congruence]. split; [eauto 10|congruence].
  - split; [|congruence]. split; [eauto 10|congruence].
  - split; [|congruence]. split; [intros _; do 3 right; eauto 10|congruence].
  - split.
    + split; [congruence|].
      intros [(er & H)|[(enc' & er & H1 & H2)|[(enc' & er & H1 & H2)
               |(enc' & tok' & er & H1 & H2 & H3)]]].
      * congruence.
      * rewrite Hm in H1. injection H1 as <-. congruence.
      * rewrite Hm in H1. injection H1 as <-. unfold NewRequest in H2.
        rewrite Hq in H2. discriminate.
      * rewrite Hm in H1. injection H1 as <-. rewrite Ht in H2.
        injection H2 as <-. congruence.
    + intros _. exists res, enc, tok. split; [exact Hd|].
      simpl. rewrite Hc. reflexivity.
Qed.

Lemma send_error_iff_witness :
  exists w' err,
    send (Demo.env 1) (Demo.world 1 None) 1%positive = Some (w', err)
    /\ err <> None.
Proof.
  destruct (send_error_iff (Demo.env 1) (Demo.world 1 None) 1%positive
              (Demo.event "room_started" "EV_1" 1))
    as (w' & err & Hs & Hiff & _).
  - reflexivity.
  - exists w', err. split; [exact Hs|]. apply Hiff.
    do 3 right. do 3 eexists. repeat split; reflexivity.
Defined.

(** C7: the token [send] signs a payload with binds the base64 encoding
    of the SHA-256 digest of that payload and is valid for five minutes;
    the digest depends on the payload alone, so signing the same bytes
    again, at another time or in another state of the notifier, binds
    the same digest, while the token itself is made at the time of the
    call.  A send that succeeds hands the client the payload with the
    token made from that access token. *)
Theorem signing_binds_digest (E : Env) (w : World) (encoded : bytes) :
  at_sha256 (signing_token E w encoded)
    = base64_EncodeToString E (sha256_Sum256 E encoded)
  /\ at_validFor (signing_token E w encoded) = 5 * 60 * 1000000000
  /\ at_apiKey (signing_token E w encoded) = APIKey (params w)
  /\ at_secret (signing_token E w encoded) = APISecret (params w)
  /\ (forall w2 : World,
        at_sha256 (signing_token E w2 encoded) = at_sha256 (signing_token E w encoded))
  /\ (forall (event : loc) (w' : World),
        send E w event = Some (w', None) ->
        exists e payload token,
          heap w' !! event = Some e
          /\ protojson_Marshal E e = Ok payload
          /\ AccessToken_ToJWT E (signing_token E w payload) (now w) = Ok token
          /\ httpCalls w' = httpCalls w ++ [signed_request E w payload token]
          /\ req_body (signed_request E w payload token) = payload
          /\ (authHeader E <> "content-type" ->
              Header_Get (signed_request E w payload token) (authHeader E) = Some token)).
Proof.
  repeat split.
  intros event w' Hs.
  destruct (heap w !! event) as [e|] eqn:He.
  2:{ unfold send, send_swap in Hs. rewrite He in Hs. discriminate. }
  destruct (send_unfold E w event e He)
    as (w1 & _ & Hs1 & He1 & Hheap & _ & Hp & Hn & Hh & _ & _).
  rewrite Hs1 in Hs.
  assert (Htok : forall enc, signing_token E w1 enc = signing_token E w enc).
  { intros enc. unfold signing_token. rewrite Hp. reflexivity. }
  assert (Hreq : forall enc tok, signed_request E w1 enc tok = signed_request E w enc tok).
  { intros enc tok. unfold signed_request. rewrite Hp. reflexivity. }
  destruct (send_rest_cases E w1 event _ w' None He1 Hs)
    as [(er & H & _)|[(er & enc & H & _)|[(er & enc & tok & H & _)
       |[(er & enc & tok & H & _)|(enc & tok & res & _ & -> & Hm & Ht & Hq & Hd)]]]];
    try discriminate.
  rewrite Htok, Hn in Ht. rewrite Hreq, Hh.
  exists (livekit.set_NumDropped e (dropped w)), enc, tok.
  simpl. repeat split; auto.
  intros Hne. unfold Header_Get, signed_request, Header_Set. simpl.
  destruct (String.eqb_spec (authHeader E) "content-type") as [Heq|_]; [contradiction|].
  simpl. rewrite String.eqb_refl. reflexivity.
Qed.

Lemma signing_binds_digest_witness :
  exists w' e payload token,
    send (Demo.env 0) (Demo.world 1 None) 1%positive = Some (w', None)
    /\ heap w' !! 1%positive = Some e
    /\ protojson_Marshal (Demo.env 0) e = Ok payload
    /\ AccessToken_ToJWT (Demo.env 0)
         (signing_token (Demo.env 0) (Demo.world 1 None) payload) 1000 = Ok token
    /\ httpCalls w' = [signed_request (Demo.env 0) (Demo.world 1 None) payload token].
Proof.
  destruct (send (Demo.env 0) (Demo.world 1 None) 1%positive) as [[w' err]|] eqn:Hs;
    [|vm_compute in Hs; discriminate].
  assert (err = None) as ->.
  { pose proof Hs as Hs'. vm_compute in Hs'. injection Hs' as _ Herr.
    symmetry. exact Herr. }
  destruct (signing_binds_digest (Demo.env 0) (Demo.world 1 None) [])
    as (_ & _ & _ & _ & _ & H).
  destruct (H 1%positive w' Hs) as (e & payload & token & He & Hm & Ht & Hh & _).
  exists w', e, payload, token. auto.
Defined.

(** C10: [send] writes the [NumDropped] field of the event it is given
    and nothing else of it, and no other event; [QueueNotify] writes no
    event at all, whichever way it takes. *)
Theorem send_writes_NumDropped_only (E : Env) (w : World) (event : loc)
    (e : livekit.WebhookEvent) :
  heap w !! event = Some e ->
  (forall w' err,
     send E w event = Some (w', err) ->
     exists e',
       heap w' !! event = Some e'
       /\ livekit.Event e' = livekit.Event e
       /\ livekit.Room e' = livekit.Room e
       /\ livekit.Participant e' = livekit.Participant e
       /\ livekit.Track e' = livekit.Track e
       /\ livekit.EgressInfo e' = livekit.EgressInfo e
       /\ livekit.IngressInfo e' = livekit.IngressInfo e
       /\ livekit.Id e' = livekit.Id e
       /\ livekit.CreatedAt e' = livekit.CreatedAt e
       /\ livekit.NumDropped e' = dropped w
       /\ (forall other, other <> event -> heap w' !! other = heap w !! other))
  /\ (forall ctx w' err,
        QueueNotify E w ctx event = Some (w', err) -> heap w' = heap w).
Proof.
  intros He. split.
  - intros w' err Hs.
    destruct (send_unfold E w event e He)
      as (w1 & _ & Hs1 & He1 & Hheap & _).
    rewrite Hs1 in Hs.
    assert (Hw' : heap w' = heap w1).
    { destruct (send_rest_cases E w1 event _ w' err He1 Hs)
        as [(er & _ & -> & _)|[(er & enc & _ & -> & _)|[(er & enc & tok & _ & -> & _)
           |[(er & enc & tok & _ & -> & _)|(enc & tok & res & _ & -> & _)]]]];
        reflexivity. }
    exists (livekit.set_NumDropped e (dropped w)).
    rewrite Hw', Hheap. rewrite lookup_insert_eq.
    repeat split.
    intros other Hne. rewrite lookup_insert_ne by congruence. reflexivity.
  - intros ctx w' err. unfold QueueNotify. rewrite He.
    destruct (negb _); [intros [= <- _]; reflexivity|].
    destruct (pool_Submit E w _) as [w1 [|]] eqn:Hsub.
    + intros [= <- _].
      destruct (pool_Submit_true _ _ _ _ Hsub) as (q & _ & _ & _ & ->).
      reflexivity.
    + rewrite (pool_Submit_false _ _ _ _ Hsub).
      unfold getProcessedHook, apply_FieldsHook. simpl.
      destruct (processedHook w); [|intros [= <- _]; reflexivity].
      destruct (FieldsHook (params w)); intros [= <- _]; reflexivity.
Qed.

Lemma send_writes_NumDropped_only_witness :
  exists e',
    heap (Demo.world 1 None) !! 1%positive = Some e'
    /\ forall ctx w' err,
         QueueNotify (Demo.env 0) (Demo.world 1 None) ctx 1%positive = Some (w', err) ->
         heap w' = heap (Demo.world 1 None).
Proof.
  eexists. split; [reflexivity|].
  apply (send_writes_NumDropped_only (Demo.env 0) (Demo.world 1 None) 1%positive
           (Demo.event "room_started" "EV_1" 1)).
  reflexivity.
Defined.

(** ** The accounting of the closure *)

Lemma task_epilogue_dropped (w : World) (fr : Frame) (err : option error) (w' : World)
    (e : livekit.WebhookEvent) :
  heap w !! job_event (fr_job fr) = Some e ->
  task_epilogue w fr err = Some w' ->
  dropped w' =
    match err with
    | Some _ => wrap32 (dropped w + (livekit.NumDropped e + 1))
    | None => dropped w
    end.
Proof.
  intros He. unfold task_epilogue. rewrite He.
  unfold getProcessedHook, apply_FieldsHook.
  destruct err as [er|]; simpl.
  - rewrite <- (wrap32_add_r (dropped w)).
    destruct (processedHook w); [|intros [= <-]; reflexivity].
    destruct (FieldsHook (params w)); intros [= <-]; reflexivity.
  - destruct (processedHook w); [|intros [= <-]; reflexivity].
    destruct (FieldsHook (params w)); intros [= <-]; reflexivity.
Qed.

(** C5: the closure of a queued event runs to its end; when its send
    fails, it adds [event.NumDropped + 1] to the counter ([int32]
    arithmetic), which gives back what the send took from the counter and
    counts the event itself; when its send succeeds, it leaves the counter
    as [send] left it. *)
Theorem task_drop_accounting (E : Env) (w : World) (j : Job)
    (e : livekit.WebhookEvent) :
  heap w !! job_event j = Some e ->
  exists w1 err e1 w2,
    send E w (job_event j) = Some (w1, err)
    /\ heap w1 !! job_event j = Some e1
    /\ task E w j = Some w2
    /\ (err <> None ->
          dropped w2 = wrap32 (dropped w1 + (livekit.NumDropped e1 + 1))
          /\ (in_int32 (dropped w1 + (livekit.NumDropped e1 + 1)) ->
              dropped w2 = dropped w1 + (livekit.NumDropped e1 + 1))
          /\ dropped w2 = wrap32 (dropped w + 1))
    /\ (err = None -> dropped w2 = dropped w1 /\ dropped w2 = 0).
Proof.
  intros He.
  destruct (send_unfold E w (job_event j) e He)
    as (w0 & _ & Hs & He0 & Hh0 & Hd0 & _).
  destruct (send_rest_total E w0 (job_event j) _ He0) as (w1 & err & Hr).
  assert (Hw1 : heap w1 = heap w0 /\ dropped w1 = dropped w0).
  { destruct (send_rest_cases E w0 _ _ w1 err He0 Hr)
      as [(er & _ & -> & _)|[(er & enc & _ & -> & _)|[(er & enc & tok & _ & -> & _)
         |[(er & enc & tok & _ & -> & _)|(enc & tok & res & _ & -> & _)]]]];
      split; reflexivity. }
  destruct Hw1 as [Hh1 Hd1].
  set (e1 := livekit.set_NumDropped e (dropped w)) in *.
  assert (He1 : heap w1 !! job_event j = Some e1) by (rewrite Hh1; exact He0).
  set (fr := {| fr_job := j;
                fr_fields := logFields E e (URL (params w))
                             ++ [LVString "queueDuration";
                                 LVDuration (now w - job_enqueuedAt j)];
                fr_queueDuration := now w - job_enqueuedAt j;
                fr_sendStart := now w |}).
  assert (Hp : task_prologue E w j = Some fr)
    by (unfold task_prologue; rewrite He; reflexivity).
  destruct (task_epilogue w1 fr err) as [w2|] eqn:Hepi.
  2:{ unfold task_epilogue in Hepi. simpl in Hepi. rewrite He1 in Hepi.
      destruct (getProcessedHook _); [|discriminate].
      destruct (apply_FieldsHook _ _). discriminate. }
  exists w1, err, e1, w2.
  split; [rewrite Hs; exact Hr|]. split; [exact He1|].
  split; [unfold task; rewrite Hp, Hs, Hr; exact Hepi|].
  rewrite (task_epilogue_dropped w1 fr err w2 e1 He1 Hepi), Hd1, Hd0.
  destruct err; split; try congruence.
  - intros _. split; [reflexivity|]. split; [apply wrap32_id|].
    subst e1. simpl. f_equal; lia.
  - intros _. auto.
Qed.

Lemma task_drop_accounting_witness :
  exists w2,
    task (Demo.env 1) (Demo.world 1 None) (Demo.job 1) = Some w2
    /\ dropped w2 = 1.
Proof.
  destruct (task_drop_accounting (Demo.env 1) (Demo.world 1 None) (Demo.job 1)
              (Demo.event "room_started" "EV_1" 1) eq_refl)
    as (w1 & err & e1 & w2 & Hs & _ & Ht & Hfail & _).
  exists w2. split; [exact Ht|].
  assert (Herr : err <> None).
  { vm_compute in Hs. injection Hs as _ <-. discriminate. }
  destruct (Hfail Herr) as (_ & _ & Hd). exact Hd.
Defined.

(** ** The effect of one step on the pool, the counter and the history *)

Lemma QueueNotify_effect (E : Env) (w : World) (ctx : Ctx) (event : loc)
    (w' : World) (err : option error) :
  QueueNotify E w ctx event = Some (w', err) ->
  workers w' = workers w /\ heap w' = heap w /\ closed w' = closed w
  /\ params w' = params w
  /\ ((history w' = history w /\ dropped w' = dropped w /\ queues w' = queues w)
      \/ (exists j q,
            history w' = history w ++ [OAccepted j] /\ dropped w' = dropped w
            /\ closed w = false
            /\ queues w !! partition_of E (job_key j) = Some q
            /\ queues w' = <[partition_of E (job_key j) := q ++ [j]]> (queues w)
            /\ is_Some (heap w !! job_event j))
      \/ (exists j,
            history w' = history w ++ [ORejected j]
            /\ dropped w' = wrap32 (dropped w + 1) /\ queues w' = queues w)).
Proof.
  unfold QueueNotify.
  destruct (heap w !! event) as [e|] eqn:He; [|discriminate].
  destruct (negb _); [intros [= <- _]; auto 10|].
  destruct (pool_Submit E w _) as [w1 [|]] eqn:Hsub.
  - intros [= <- _].
    destruct (pool_Submit_true _ _ _ _ Hsub) as (q & Hq & Hc & _ & ->).
    simpl. repeat split. right; left. do 2 eexists.
    repeat split; [exact Hc|exact Hq|]. simpl. rewrite He. eauto.
  - rewrite (pool_Submit_false _ _ _ _ Hsub).
    unfold getProcessedHook, apply_FieldsHook. simpl.
    destruct (processedHook w); [destruct (FieldsHook (params w))|];
      intros [= <- _]; simpl; repeat split; right; right; eauto.
Qed.

Lemma task_epilogue_effect (w : World) (fr : Frame) (err : option error) (w' : World) :
  task_epilogue w fr err = Some w' ->
  exists e,
    heap w !! job_event (fr_job fr) = Some e
    /\ workers w' = workers w /\ queues w' = queues w /\ heap w' = heap w
    /\ closed w' = closed w /\ params w' = params w
    /\ history w' = history w ++
         match err with Some _ => [OFailed (job_event (fr_job fr))] | None => [] end
    /\ dropped w' =
         match err with
         | Some _ => wrap32 (dropped w + (livekit.NumDropped e + 1))
         | None => dropped w
         end.
Proof.
  intros H.
  destruct (heap w !! job_event (fr_job fr)) as [e|] eqn:He.
  2:{ unfold task_epilogue in H. rewrite He in H. discriminate. }
  exists e. split; [reflexivity|].
  pose proof (task_epilogue_dropped w fr err w' e He H) as Hd.
  unfold task_epilogue in H. rewrite He in H.
  unfold getProcessedHook, apply_FieldsHook in H.
  destruct err as [er|]; simpl in H;
    (destruct (processedHook w); [destruct (FieldsHook (params w))|]);
    injection H as <-; simpl; rewrite ?app_nil_r; repeat split; exact Hd.
Qed.

Lemma worker_begin_effect (E : Env) (w : World) (i : nat) (w' : World) :
  worker_begin E w i = Some w' ->
  exists j q e fr,
    queues w !! i = Some (j :: q) /\ workers w !! i = Some None
    /\ heap w !! job_event j = Some e /\ fr_job fr = j
    /\ queues w' = <[i := q]> (queues w)
    /\ workers w' = <[i := Some fr]> (workers w)
    /\ heap w' = <[job_event j := livekit.set_NumDropped e (dropped w)]> (heap w)
    /\ dropped w' = 0 /\ closed w' = closed w /\ params w' = params w
    /\ history w' = history w ++ [OStarted i j; OSwap (job_event j) (dropped w)].
Proof.
  unfold worker_begin.
  destruct (queues w !! i) as [[|j q]|]; try discriminate.
  destruct (workers w !! i) as [[fr0|]|]; try discriminate.
  unfold task_prologue.
  destruct (heap w !! job_event j) as [e|] eqn:He; [|discriminate].
  unfold send_swap. simpl. rewrite He. simpl.
  intros [= <-]. exists j, q, e. eexists. simpl.
  repeat split; try reflexivity; try assumption.
  rewrite <- ?app_assoc. reflexivity.
Qed.

Lemma worker_end_effect (E : Env) (w : World) (i : nat) (w' : World) :
  worker_end E w i = Some w' ->
  exists fr e,
    workers w !! i = Some (Some fr)
    /\ heap w !! job_event (fr_job fr) = Some e
    /\ workers w' = <[i := None]> (workers w)
    /\ queues w' = queues w /\ heap w' = heap w /\ closed w' = closed w
    /\ params w' = params w
    /\ ((exists r,
           history w' = history w ++
             [OSent (job_event (fr_job fr)) e r; OFinished i (fr_job fr)]
           /\ dropped w' = dropped w
           /\ protojson_Marshal E e = Ok (req_body r)
           /\ httpCalls w' = httpCalls w ++ [r])
        \/ (history w' = history w ++
              [OFailed (job_event (fr_job fr)); OFinished i (fr_job fr)]
            /\ dropped w' = wrap32 (dropped w + (livekit.NumDropped e + 1)))).
Proof.
  unfold worker_end.
  destruct (workers w !! i) as [[fr|]|]; try discriminate.
  destruct (send_rest E w (job_event (fr_job fr))) as [[w1 err]|] eqn:Hs; [|discriminate].
  destruct (task_epilogue w1 fr err) as [w2|] eqn:Hepi; [|discriminate].
  intros [= <-].
  destruct (heap w !! job_event (fr_job fr)) as [e|] eqn:He.
  2:{ unfold send_rest in Hs. rewrite He in Hs. discriminate. }
  destruct (task_epilogue_effect _ _ _ _ Hepi)
    as (e1 & He1 & Hw & Hq & Hh & Hc & Hp & Hhist & Hd).
  exists fr, e. split; [reflexivity|]. split; [exact He|]. simpl.
  assert (Hh2 : httpCalls w2 = httpCalls w1).
  { unfold task_epilogue in Hepi. rewrite He1 in Hepi.
    unfold getProcessedHook, apply_FieldsHook in Hepi.
    destruct err; simpl in Hepi;
      (destruct (processedHook w1); [destruct (FieldsHook (params w1))|]);
      injection Hepi as <-; reflexivity. }
  destruct (send_rest_cases E w _ e w1 err He Hs)
    as [(er & -> & -> & _)|[(er & enc & -> & -> & _)|[(er & enc & tok & -> & -> & _)
       |[(er & enc & tok & -> & -> & _)|(enc & tok & res & -> & -> & Hm & _)]]]];
    simpl in *; rewrite He in He1; injection He1 as <-;
    rewrite Hw, Hq, Hh, Hc, Hp, Hhist, Hd; repeat split;
    rewrite <- ?app_assoc; simpl; eauto.
  left. exists (signed_request E w enc tok). repeat split; auto.
Qed.

(** The two steps of a worker, run one after the other, are the closure
    [QueueNotify] submitted, run from its first statement to its last. *)
Lemma worker_steps_are_task (E : Env) (w : World) (i : nat) (j : Job) (q : list Job) :
  queues w !! i = Some (j :: q) ->
  workers w !! i = Some None ->
  run E w [ABegin i; AEnd i] =
    match task_prologue E w j with
    | None => None
    | Some fr =>
        let w0 :=
          observe (set_workers (set_queues w (<[i := q]> (queues w)))
                               (<[i := Some fr]> (workers w)))
                  (OStarted i j) in
        match task E w0 j with
        | None => None
        | Some wt =>
            Some (observe (set_workers wt (<[i := None]> (workers wt))) (OFinished i j))
        end
    end.
Proof.
  intros Hqi Hwi. pose proof (lookup_lt_Some _ _ _ Hwi) as Hlt.
  simpl. unfold worker_begin. rewrite Hqi, Hwi.
  destruct (task_prologue E w j) as [fr|] eqn:Hp; [|reflexivity].
  assert (Hfr : fr_job fr = j).
  { unfold task_prologue in Hp. destruct (heap w !! job_event j); [|discriminate].
    injection Hp as <-. reflexivity. }
  cbv zeta. set (w0 := observe _ (OStarted i j)).
  assert (Hp0 : task_prologue E w0 j = Some fr) by exact Hp.
  unfold task. rewrite Hp0. unfold send.
  destruct (send_swap w0 (job_event j)) as [w1|] eqn:Hs; [|reflexivity].
  assert (Hw1 : workers w1 !! i = Some (Some fr)).
  { unfold send_swap in Hs. destruct (heap w0 !! job_event j); [|discriminate].
    injection Hs as <-. simpl. apply list_lookup_insert_eq, Hlt. }
  unfold worker_end. rewrite Hw1, Hfr.
  destruct (send_rest E w1 (job_event j)) as [[w2 err]|]; [|reflexivity].
  destruct (task_epilogue w2 fr err); reflexivity.
Qed.

(** ** Invariants of the executions *)

(** What every step preserves holds along every execution. *)
Lemma run_invariant (E : Env) (P : World -> Prop) :
  (forall w a w', P w -> step E w a = Some w' -> P w') ->
  forall tr w w', P w -> run E w tr = Some w' -> P w'.
Proof.
  intros Hstep tr. induction tr as [|a tr IH]; intros w w' Hw Hrun; simpl in Hrun.
  - injection Hrun as <-. exact Hw.
  - destruct (step E w a) as [w1|] eqn:Hs; [|discriminate].
    exact (IH w1 w' (Hstep w a w1 Hw Hs) Hrun).
Qed.

(** ** The counter under single-threaded sends *)

Lemma rejections_app (l l' : list Obs) :
  rejections (l ++ l') = rejections l + rejections l'.
Proof.
  induction l as [|o l IH]; simpl; [lia|].
  destruct o; rewrite IH; lia.
Qed.

Lemma rejections_nonneg (l : list Obs) : 0 <= rejections l.
Proof. induction l as [|o l IH]; simpl; [lia|]. destruct o; lia. Qed.

Lemma drops_back_nonneg (b : bool) (rh : list Obs) : 0 <= drops_back b rh.
Proof.
  revert b. induction rh as [|o rh IH]; intros b; simpl; [lia|].
  destruct o; try apply IH.
  - specialize (IH b). lia.
  - destruct b; [lia|apply IH].
  - specialize (IH false). lia.
Qed.

Lemma drops_back_producers (b : bool) (rest l : list Obs) :
  forallb of_producer rest = true ->
  drops_back b (rev rest ++ l) = rejections rest + drops_back b l.
Proof.
  revert l. induction rest as [|o rest IH]; intros l H; simpl in *; [lia|].
  apply andb_true_iff in H as [Ho H].
  rewrite <- app_assoc. simpl. rewrite (IH _ H).
  destruct o; simpl in *; try discriminate; lia.
Qed.

Lemma drops_since_sent_producers (h os : list Obs) :
  forallb of_producer os = true ->
  drops_since_sent (h ++ os) = rejections os + drops_since_sent h.
Proof.
  intros H. unfold drops_since_sent. rewrite rev_app_distr.
  apply drops_back_producers, H.
Qed.

Lemma drops_back_read (b : bool) (h1 rest : list Obs) (p : loc) (n : Z) :
  forallb of_producer rest = true ->
  drops_back b (rev (h1 ++ OSwap p n :: rest))
  = rejections rest + (if b then 0 else drops_since_sent h1).
Proof.
  intros H. rewrite rev_app_distr. simpl. rewrite <- app_assoc. simpl.
  rewrite (drops_back_producers _ _ _ H). simpl. destruct b; reflexivity.
Qed.

Lemma count_drops_app (l l' : list Obs) :
  count_drops (l ++ l') = count_drops l + count_drops l'.
Proof.
  induction l as [|o l IH]; simpl; [lia|].
  destruct o; rewrite IH; lia.
Qed.

Lemma count_drops_producers (l : list Obs) :
  forallb of_producer l = true -> count_drops l = rejections l.
Proof.
  induction l as [|o l IH]; simpl; [reflexivity|].
  intros H. apply andb_true_iff in H as [Ho H].
  destruct o; simpl in Ho; try discriminate; rewrite (IH H); reflexivity.
Qed.

Lemma drops_back_unsent (l x : list Obs) :
  existsb is_sent l = false ->
  drops_back false (rev l ++ x) = count_drops l + drops_back false x.
Proof.
  revert x. induction l as [|o l IH]; intros x H; simpl in *; [lia|].
  apply orb_false_iff in H as [Ho H].
  rewrite <- app_assoc. simpl. rewrite (IH _ H).
  destruct o; simpl in *; try discriminate; lia.
Qed.

(** Before any send has succeeded, all drops count. *)
Lemma drops_since_sent_unsent (h : list Obs) :
  existsb is_sent h = false -> drops_since_sent h = count_drops h.
Proof.
  intros H. unfold drops_since_sent.
  rewrite <- (app_nil_r (rev h)), (drops_back_unsent _ _ H). simpl. lia.
Qed.

(** After a send that succeeded, the drops that count are those after
    its read of the counter. *)
Lemma drops_since_sent_after (h0 mid rest : list Obs) (p q : loc) (n : Z)
    (e : livekit.WebhookEvent) (r : Request) :
  forallb of_producer mid = true ->
  existsb is_sent rest = false ->
  drops_since_sent (h0 ++ OSwap p n :: mid ++ OSent q e r :: rest)
  = count_drops (mid ++ rest).
Proof.
  intros Hmid Hrest. unfold drops_since_sent.
  replace (rev (h0 ++ OSwap p n :: mid ++ OSent q e r :: rest))
    with (rev rest ++ OSent q e r :: rev mid ++ OSwap p n :: rev h0).
  2:{ rewrite rev_app_distr. simpl. rewrite rev_app_distr. simpl.
      rewrite <- !app_assoc. reflexivity. }
  rewrite (drops_back_unsent _ _ Hrest). simpl.
  rewrite (drops_back_producers _ _ _ Hmid). simpl.
  rewrite count_drops_app, (count_drops_producers _ Hmid). lia.
Qed.

Lemma reports_exact_snoc (h : list Obs) (o : Obs) :
  reports_exact h ->
  (forall q e r, o <> OSent q e r) ->
  reports_exact (h ++ [o]).
Proof.
  intros Hh Ho a q e r h2 Heq.
  destruct h2 as [|x h2 _] using rev_ind.
  - exfalso. apply app_inj_tail in Heq as [_ ->]. exact (Ho q e r eq_refl).
  - assert (Heq' : h ++ [o] = (a ++ OSent q e r :: h2) ++ [x]).
    { rewrite Heq, <- app_assoc. reflexivity. }
    apply app_inj_tail in Heq' as [Heq' _].
    exact (Hh a q e r h2 Heq').
Qed.

Lemma reports_exact_app (h os : list Obs) :
  reports_exact h ->
  forallb of_producer os = true ->
  reports_exact (h ++ os).
Proof.
  revert h. induction os as [|o os IH]; intros h Hh H.
  - rewrite app_nil_r. exact Hh.
  - simpl in H. apply andb_true_iff in H as [Ho H].
    replace (h ++ o :: os) with ((h ++ [o]) ++ os) by (rewrite <- app_assoc; reflexivity).
    apply IH; [|exact H]. apply reports_exact_snoc; [exact Hh|].
    intros q e r ->. discriminate.
Qed.

Lemma reports_exact_sent (h1 rest : list Obs) (p : loc) (e : livekit.WebhookEvent)
    (r : Request) :
  reports_exact (h1 ++ OSwap p (livekit.NumDropped e) :: rest) ->
  forallb of_producer rest = true ->
  livekit.NumDropped e = wrap32 (drops_since_sent h1) ->
  reports_exact ((h1 ++ OSwap p (livekit.NumDropped e) :: rest) ++ [OSent p e r]).
Proof.
  intros Hh Hrest Hn a q e' r' h2 Heq.
  destruct h2 as [|x h2 _] using rev_ind.
  - apply app_inj_tail in Heq as [<- Hs]. injection Hs as <- <- <-.
    exists h1, rest. auto.
  - assert (Heq' : (h1 ++ OSwap p (livekit.NumDropped e) :: rest) ++ [OSent p e r]
                   = (a ++ OSent q e' r' :: h2) ++ [x]).
    { rewrite Heq, <- app_assoc. reflexivity. }
    apply app_inj_tail in Heq' as [Heq' _].
    exact (Hh a q e' r' h2 Heq').
Qed.

Lemma counter_inv_producer (b : bool) (w w' : World) (os : list Obs) :
  workers w' = workers w -> heap w' = heap w ->
  history w' = history w ++ os ->
  forallb of_producer os = true ->
  (dropped w' = dropped w /\ rejections os = 0)
  \/ dropped w' = wrap32 (dropped w + rejections os) ->
  counter_inv b w -> counter_inv b w'.
Proof.
  intros Hw Hh Hhist Hos Hd [Hre Hb]. split.
  { rewrite Hhist. apply reports_exact_app; assumption. }
  assert (Hd' : forall X, dropped w = wrap32 X -> dropped w' = wrap32 (rejections os + X)).
  { intros X HX. destruct Hd as [[-> Hz]| ->].
    - rewrite Hz, HX. reflexivity.
    - rewrite HX, wrap32_add_l. f_equal. lia. }
  destruct b.
  - destruct Hb as (i & fr & e & h1 & rest & [Hi Hu] & He & Hhw & Hrest & Hdw & Hn).
    exists i, fr, e, h1, (rest ++ os).
    split; [split; rewrite Hw; assumption|].
    split; [rewrite Hh; exact He|].
    split; [rewrite Hhist, Hhw, <- app_assoc; reflexivity|].
    split; [rewrite forallb_app, Hrest, Hos; reflexivity|].
    split; [|exact Hn].
    rewrite rejections_app, (Hd' _ Hdw). f_equal. lia.
  - destruct Hb as [Hidle Hdw]. split.
    + unfold idle. rewrite Hw. exact Hidle.
    + rewrite Hhist, (drops_since_sent_producers _ _ Hos). apply Hd', Hdw.
Qed.

Lemma step_counter_inv (E : Env) (b : bool) (w : World) (a : action) (w' : World) :
  counter_inv b w ->
  step E w a = Some w' ->
  match a with ABegin _ => b = false | _ => True end ->
  counter_inv (next_flag b a) w'.
Proof.
  intros Hinv Hstep Hok.
  destruct a as [ctx event|i|i|d|k sk|f|h|force].
  - (* a producer calls QueueNotify *)
    simpl in Hstep.
    destruct (QueueNotify E w ctx event) as [[w1 err]|] eqn:Hq; [|discriminate].
    simpl in Hstep. injection Hstep as ->.
    destruct (QueueNotify_effect _ _ _ _ _ _ Hq)
      as (Hw & Hh & _ & _ & [(Hhist & Hd & _)|[(j & q & Hhist & Hd & _)|(j & Hhist & Hd & _)]]).
    + apply (counter_inv_producer b w w' []); auto. rewrite app_nil_r; auto.
    + apply (counter_inv_producer b w w' [OAccepted j]); auto.
    + apply (counter_inv_producer b w w' [ORejected j]); auto.
  - (* a worker takes a job and reads the counter *)
    simpl in Hstep, Hok. subst b. simpl.
    destruct (worker_begin_effect _ _ _ _ Hstep)
      as (j & q & e & fr & Hq & Hwi & He & Hfr & _ & Hw & Hh & Hd & _ & _ & Hhist).
    destruct Hinv as [Hre [Hidle Hdw]].
    split.
    { rewrite Hhist.
      replace (history w ++ [OStarted i j; OSwap (job_event j) (dropped w)])
        with ((history w ++ [OStarted i j]) ++ [OSwap (job_event j) (dropped w)])
        by (rewrite <- app_assoc; reflexivity).
      apply reports_exact_snoc; [apply reports_exact_snoc|]; auto; discriminate. }
    exists i, fr, (livekit.set_NumDropped e (dropped w)), (history w ++ [OStarted i j]), [].
    rewrite Hfr. simpl.
    split.
    { split.
      - rewrite Hw. apply list_lookup_insert_eq. eapply lookup_lt_Some, Hwi.
      - intros i' fr' H'. rewrite Hw in H'.
        destruct (decide (i' = i)) as [->|Hne]; [reflexivity|].
        rewrite list_lookup_insert_ne in H' by congruence.
        exfalso. exact (Hidle _ _ H'). }
    split; [rewrite Hh; apply lookup_insert_eq|].
    split; [rewrite Hhist, <- app_assoc; reflexivity|].
    split; [reflexivity|].
    split; [exact Hd|].
    rewrite Hdw. f_equal.
    unfold drops_since_sent. rewrite rev_unit. reflexivity.
  - (* a worker finishes its send *)
    simpl in Hstep. simpl.
    destruct (worker_end_effect _ _ _ _ Hstep)
      as (fr & e & Hwi & He & Hw & _ & Hh & _ & _ & Hout).
    destruct Hinv as [Hre Hb]. destruct b.
    2:{ exfalso. destruct Hb as [Hidle _]. exact (Hidle _ _ Hwi). }
    destruct Hb as (i0 & fr0 & e0 & h1 & rest & [Hi Hu] & He0 & Hhw & Hrest & Hdw & Hn).
    assert (i = i0) as -> by (eapply Hu, Hwi).
    assert (fr0 = fr) as -> by congruence.
    assert (e0 = e) as -> by congruence.
    assert (Hidle' : idle w').
    { intros i' fr' H'. rewrite Hw in H'.
      destruct (decide (i' = i0)) as [->|Hne].
      - rewrite list_lookup_insert_eq in H' by (eapply lookup_lt_Some, Hwi). discriminate.
      - rewrite list_lookup_insert_ne in H' by congruence. apply Hne. eapply Hu, H'. }
    destruct Hout as [(r & Hhist & Hd & _ & _)|(Hhist & Hd)].
    + split.
      { rewrite Hhist.
        replace (history w ++ [OSent (job_event (fr_job fr)) e r; OFinished i0 (fr_job fr)])
          with ((history w ++ [OSent (job_event (fr_job fr)) e r]) ++ [OFinished i0 (fr_job fr)])
          by (rewrite <- app_assoc; reflexivity).
        apply reports_exact_snoc; [|discriminate].
        rewrite Hhw. apply reports_exact_sent; [rewrite <- Hhw; exact Hre|exact Hrest|exact Hn]. }
      split; [exact Hidle'|].
      rewrite Hd, Hdw, Hhist. f_equal.
      unfold drops_since_sent. rewrite rev_app_distr. simpl.
      rewrite Hhw, (drops_back_read true _ _ _ _ Hrest). lia.
    + split.
      { rewrite Hhist.
        replace (history w ++ [OFailed (job_event (fr_job fr)); OFinished i0 (fr_job fr)])
          with ((history w ++ [OFailed (job_event (fr_job fr))]) ++ [OFinished i0 (fr_job fr)])
          by (rewrite <- app_assoc; reflexivity).
        apply reports_exact_snoc; [apply reports_exact_snoc|]; auto; discriminate. }
      split; [exact Hidle'|].
      rewrite Hd, Hdw, Hn, Hhist.
      unfold drops_since_sent at 2. rewrite rev_app_distr. simpl.
      rewrite Hhw, (drops_back_read false _ _ _ _ Hrest).
      rewrite wrap32_add_l.
      replace (rejections rest + (wrap32 (drops_since_sent h1) + 1))
        with ((rejections rest + 1) + wrap32 (drops_since_sent h1)) by lia.
      rewrite wrap32_add_r. f_equal. lia.
  - simpl in Hstep. injection Hstep as <-.
    apply (counter_inv_producer b w _ []); auto. rewrite app_nil_r; auto.
  - simpl in Hstep. injection Hstep as <-.
    apply (counter_inv_producer b w _ []); auto. rewrite app_nil_r; auto.
  - simpl in Hstep. injection Hstep as <-.
    apply (counter_inv_producer b w _ []); auto. rewrite app_nil_r; auto.
  - simpl in Hstep. injection Hstep as <-.
    apply (counter_inv_producer b w _ []); auto. rewrite app_nil_r; auto.
  - simpl in Hstep. injection Hstep as <-.
    destruct force;
      [apply (counter_inv_producer b w _ [OStopped true])
      |apply (counter_inv_producer b w _ [OStopped false])]; auto.
Qed.

Lemma run_counter_inv (E : Env) (tr : list action) (b : bool) (w w' : World) :
  counter_inv b w ->
  single_sender b tr = true ->
  run E w tr = Some w' ->
  reports_exact (history w').
Proof.
  revert b w. induction tr as [|a tr IH]; intros b w Hinv Hs Hrun; simpl in Hrun.
  - injection Hrun as <-. apply Hinv.
  - destruct (step E w a) as [w1|] eqn:Hstep; [|discriminate].
    apply (IH (next_flag b a) w1).
    + apply (step_counter_inv E b w a w1 Hinv Hstep).
      destruct a; auto. simpl in Hs. destruct b; [discriminate|reflexivity].
    + destruct a; simpl in *; auto.
      destruct b; [discriminate|exact Hs].
    + exact Hrun.
Qed.

Lemma NewURLNotifier_counter_inv p h t : counter_inv false (NewURLNotifier p h t).
Proof.
  split; [|split].
  - intros a q e r h2 Heq. simpl in Heq. destruct a; discriminate.
  - intros i fr H. unfold NewURLNotifier in H. cbn [workers] in H.
    apply lookup_replicate in H as [H _]. discriminate.
  - reflexivity.
Qed.

Lemma step_sent_as_encoded (E : Env) (w : World) (a : action) (w' : World) :
  step E w a = Some w' ->
  sent_as_encoded E (history w) -> sent_as_encoded E (history w').
Proof.
  intros Hstep Hinv p e r Hin.
  destruct a as [ctx event|i|i|d|k sk|f|h|force].
  - simpl in Hstep.
    destruct (QueueNotify E w ctx event) as [[w1 err]|] eqn:Hq; [|discriminate].
    simpl in Hstep. injection Hstep as ->.
    destruct (QueueNotify_effect _ _ _ _ _ _ Hq)
      as (_ & _ & _ & _ & [(Hhist & _)|[(j & q & Hhist & _)|(j & Hhist & _)]]);
      rewrite Hhist in Hin; try apply in_app_or in Hin as [Hin|[Hin|[]]];
      try discriminate; eauto.
  - destruct (worker_begin_effect _ _ _ _ Hstep)
      as (j & q & e0 & fr & _ & _ & _ & _ & _ & _ & _ & _ & _ & _ & Hhist).
    rewrite Hhist in Hin. apply in_app_or in Hin as [Hin|[Hin|[Hin|[]]]];
      try discriminate; eauto.
  - destruct (worker_end_effect _ _ _ _ Hstep)
      as (fr & e0 & _ & _ & _ & _ & _ & _ & _ & [(r0 & Hhist & _ & Hm & _)|(Hhist & _)]);
      rewrite Hhist in Hin; apply in_app_or in Hin as [Hin|[Hin|[Hin|[]]]];
      try discriminate; eauto.
    injection Hin as <- <- <-. exact Hm.
  - injection Hstep as <-. eauto.
  - injection Hstep as <-. eauto.
  - injection Hstep as <-. eauto.
  - injection Hstep as <-. eauto.
  - injection Hstep as <-. simpl in Hin. destruct force; simpl in Hin;
      apply in_app_or in Hin as [Hin|[Hin|[]]]; try discriminate; eauto.
Qed.

Lemma run_sent_as_encoded (E : Env) (tr : list action) (w w' : World) :
  run E w tr = Some w' ->
  sent_as_encoded E (history w) -> sent_as_encoded E (history w').
Proof.
  intros Hrun Hinv.
  apply (run_invariant E (fun w => sent_as_encoded E (history w))) with tr w; auto.
  intros w0 a w1 H0 Hs. exact (step_sent_as_encoded E w0 a w1 Hs H0).
Qed.

(** C1: with single-threaded sends and any load of producers, every
    send that succeeds comes after its read of the counter, with nothing
    but producers in between; the event it sends carries in [NumDropped]
    the value read, and that value is the number of drops (submissions
    turned down and sends that failed) recorded since the counter was read
    for the last successful send before it.  The number is held in an
    [int32]: it is the exact count as long as that fits.  The payload
    handed to the client is the encoding of the event with this value.
    The read is one swap that leaves the counter at zero. *)
Theorem num_dropped_reports_drops (E : Env) (p0 : URLNotifierParams)
    (h0 : gmap loc livekit.WebhookEvent) (t0 : Time) (tr : list action) (w : World) :
  run E (NewURLNotifier p0 h0 t0) tr = Some w ->
  single_sender false tr = true ->
  (forall a q e r h2,
     history w = a ++ OSent q e r :: h2 ->
     exists h1 mid,
       a = h1 ++ OSwap q (livekit.NumDropped e) :: mid
       /\ forallb of_producer mid = true
       /\ protojson_Marshal E e = Ok (req_body r)
       /\ livekit.NumDropped e = wrap32 (drops_since_sent h1)
       /\ (drops_since_sent h1 <= int32_max ->
           livekit.NumDropped e = drops_since_sent h1))
  /\ (forall w0 event e0,
        heap w0 !! event = Some e0 ->
        exists w1,
          send_swap w0 event = Some w1
          /\ dropped w1 = 0
          /\ heap w1 !! event = Some (livekit.set_NumDropped e0 (dropped w0))).
Proof.
  intros Hrun Hs. split.
  - intros a q e r h2 Hh.
    pose proof (run_counter_inv E tr false _ w (NewURLNotifier_counter_inv p0 h0 t0) Hs Hrun)
      as Hre.
    destruct (Hre a q e r h2 Hh) as (h1 & mid & Ha & Hmid & Hn).
    assert (Hm : protojson_Marshal E e = Ok (req_body r)).
    { apply (run_sent_as_encoded E tr _ w Hrun
               (fun _ _ _ (H : In _ []) => match H with end) q e r).
      rewrite Hh. apply in_or_app. right. left. reflexivity. }
    exists h1, mid. repeat split; auto.
    intros Hle. rewrite Hn. apply wrap32_id. split; [|exact Hle].
    pose proof (drops_back_nonneg false (rev h1)). unfold drops_since_sent, int32_min. lia.
  - intros w0 event e0 He0.
    destruct (send_unfold E w0 event e0 He0) as (w1 & Hsw & _ & He1 & _ & Hd & _).
    exists w1. auto.
Qed.

Lemma num_dropped_reports_drops_witness :
  exists w e r h1 mid,
    run (Demo.env 1) (NewURLNotifier (Demo.config 1 None) Demo.events 1000) Demo.outage
      = Some w
    /\ history w =
         ([OAccepted (Demo.job 1); ORejected (Demo.job 2); OStarted 1 (Demo.job 1);
           OSwap 1%positive 1; OFailed 1%positive; OFinished 1 (Demo.job 1);
           OAccepted (Demo.job 5); OStarted 1 (Demo.job 5)]
          ++ [OSwap 5%positive 2])
         ++ OSent 5%positive e r :: [OFinished 1 (Demo.job 5)]
    /\ livekit.NumDropped e = 2
    /\ [OAccepted (Demo.job 1); ORejected (Demo.job 2); OStarted 1 (Demo.job 1);
        OSwap 1%positive 1; OFailed 1%positive; OFinished 1 (Demo.job 1);
        OAccepted (Demo.job 5); OStarted 1 (Demo.job 5)]
       ++ [OSwap 5%positive 2]
       = h1 ++ OSwap 5%positive (livekit.NumDropped e) :: mid
    /\ livekit.NumDropped e = wrap32 (drops_since_sent h1).
Proof.
  destruct (run (Demo.env 1) (NewURLNotifier (Demo.config 1 None) Demo.events 1000)
              Demo.outage) as [w|] eqn:Hrun; [|vm_compute in Hrun; discriminate].
  destruct (num_dropped_reports_drops (Demo.env 1) (Demo.config 1 None) Demo.events
              1000 Demo.outage w Hrun eq_refl) as [H _].
  assert (Hh : exists e r,
    history w =
      ([OAccepted (Demo.job 1); ORejected (Demo.job 2); OStarted 1 (Demo.job 1);
        OSwap 1%positive 1; OFailed 1%positive; OFinished 1 (Demo.job 1);
        OAccepted (Demo.job 5); OStarted 1 (Demo.job 5)]
       ++ [OSwap 5%positive 2])
      ++ OSent 5%positive e r :: [OFinished 1 (Demo.job 5)]
    /\ livekit.NumDropped e = 2).
  { vm_compute in Hrun. injection Hrun as <-. do 2 eexists. split; reflexivity. }
  destruct Hh as (e & r & Hh & Hn).
  destruct (H _ _ _ _ _ Hh) as (h1 & mid & Ha & _ & _ & Hw & _).
  exists w, e, r, h1, mid. auto.
Defined.

(** ** The order of delivery *)

Lemma with_key_app k l l' : with_key k (l ++ l') = with_key k l ++ with_key k l'.
Proof. apply List.filter_app. Qed.

Lemma accepted_jobs_app h h' : accepted_jobs (h ++ h') = accepted_jobs h ++ accepted_jobs h'.
Proof. apply omap_app. Qed.
Lemma started_jobs_app h h' : started_jobs (h ++ h') = started_jobs h ++ started_jobs h'.
Proof. apply omap_app. Qed.
Lemma finished_jobs_app h h' : finished_jobs (h ++ h') = finished_jobs h ++ finished_jobs h'.
Proof. apply omap_app. Qed.

Lemma queue_of_insert w w' i q :
  (i < length (queues w))%nat ->
  queues w' = <[i := q]> (queues w) ->
  forall i', queue_of w' i' = if decide (i' = i) then q else queue_of w i'.
Proof.
  intros Hlt Hq i'. unfold queue_of. rewrite Hq.
  destruct (decide (i' = i)) as [->|Hne].
  - rewrite list_lookup_insert_eq by exact Hlt. reflexivity.
  - rewrite list_lookup_insert_ne by congruence. reflexivity.
Qed.

Lemma running_of_insert w w' i f :
  (i < length (workers w))%nat ->
  workers w' = <[i := f]> (workers w) ->
  forall i', running_of w' i' =
    if decide (i' = i) then match f with Some fr => [fr_job fr] | None => [] end
    else running_of w i'.
Proof.
  intros Hlt Hq i'. unfold running_of. rewrite Hq.
  destruct (decide (i' = i)) as [->|Hne].
  - rewrite list_lookup_insert_eq by exact Hlt. reflexivity.
  - rewrite list_lookup_insert_ne by congruence. reflexivity.
Qed.

Lemma with_key_cons k j l :
  with_key k (j :: l) = if String.eqb (job_key j) k then j :: with_key k l else with_key k l.
Proof. reflexivity. Qed.

Lemma step_fifo_inv (E : Env) (w : World) (a : action) (w' : World) :
  fifo_inv E w -> step E w a = Some w' -> fifo_inv E w'.
Proof.
  intros (Hq & Hw & Hk) Hstep.
  destruct a as [ctx event|i|i|d|ak sk|f|h|force].
  - simpl in Hstep.
    destruct (QueueNotify E w ctx event) as [[w1 err]|] eqn:Hqn; [|discriminate].
    simpl in Hstep. injection Hstep as ->.
    destruct (QueueNotify_effect _ _ _ _ _ _ Hqn)
      as (Hws & _ & Hc & _ & [(Hhist & _ & Hqs)
         |[(j & q & Hhist & _ & Hcl & Hqi & Hqs & _)|(j & Hhist & _ & Hqs)]]).
    + unfold fifo_inv, queue_of, running_of. rewrite Hhist, Hqs, Hws, Hc. auto.
    + pose proof (lookup_lt_Some _ _ _ Hqi) as Hlt.
      split; [|split].
      * intros i q' Hi. rewrite Hqs in Hi.
        destruct (decide (i = partition_of E (job_key j))) as [->|Hne].
        -- rewrite list_lookup_insert_eq in Hi by exact Hlt. injection Hi as <-.
           apply Forall_app. split; [eapply Hq, Hqi|]. repeat constructor.
        -- rewrite list_lookup_insert_ne in Hi by congruence. eapply Hq, Hi.
      * rewrite Hws. exact Hw.
      * intros k. destruct (Hk k) as [(rest & Hacc & Hrest) Hst].
        assert (rest = []) as -> by auto.
        rewrite Hhist, accepted_jobs_app, started_jobs_app, finished_jobs_app.
        simpl. rewrite !app_nil_r.
        unfold running_of. rewrite Hws. fold (running_of w (partition_of E k)).
        split; [|exact Hst].
        exists []. split; [|reflexivity]. rewrite app_nil_r in *.
        rewrite with_key_app, Hacc.
        rewrite (queue_of_insert w w' _ _ Hlt Hqs).
        rewrite with_key_cons. simpl.
        destruct (String.eqb_spec (job_key j) k) as [Hjk|Hjk].
        -- subst k. rewrite decide_True by reflexivity.
           unfold queue_of. rewrite Hqi. simpl.
           rewrite with_key_app, with_key_cons, String.eqb_refl, <- app_assoc. reflexivity.
        -- rewrite app_nil_r. f_equal. destruct (decide _) as [Heq|]; [|reflexivity].
           unfold queue_of. rewrite Heq, Hqi. simpl.
           rewrite with_key_app, with_key_cons.
           destruct (String.eqb_spec (job_key j) k); [contradiction|].
           simpl. rewrite app_nil_r. reflexivity.
    + unfold fifo_inv, queue_of, running_of.
      rewrite Hhist, Hqs, Hws, Hc. split; [exact Hq|]. split; [exact Hw|].
      intros k. rewrite accepted_jobs_app, started_jobs_app, finished_jobs_app.
      simpl. rewrite !app_nil_r. apply Hk.
  - (* a worker takes the job at the head of its queue *)
    simpl in Hstep.
    destruct (worker_begin_effect _ _ _ _ Hstep)
      as (j & q & e & fr & Hqi & Hwi & _ & Hfr & Hqs & Hws & _ & _ & Hc & _ & Hhist).
    pose proof (lookup_lt_Some _ _ _ Hqi) as Hlt.
    pose proof (lookup_lt_Some _ _ _ Hwi) as Hlt'.
    pose proof (Hq _ _ Hqi) as Hpart. apply Forall_cons in Hpart as [Hj Hpart].
    split; [|split].
    + intros i' q' Hi. rewrite Hqs in Hi.
      destruct (decide (i' = i)) as [->|Hne].
      * rewrite list_lookup_insert_eq in Hi by exact Hlt. injection Hi as <-. exact Hpart.
      * rewrite list_lookup_insert_ne in Hi by congruence. eapply Hq, Hi.
    + intros i' fr' Hi. rewrite Hws in Hi.
      destruct (decide (i' = i)) as [->|Hne].
      * rewrite list_lookup_insert_eq in Hi by exact Hlt'. injection Hi as <-.
        rewrite Hfr. exact Hj.
      * rewrite list_lookup_insert_ne in Hi by congruence. eapply Hw, Hi.
    + intros k. destruct (Hk k) as [(rest & Hacc & Hrest) Hst].
      rewrite Hhist, accepted_jobs_app, started_jobs_app, finished_jobs_app.
      simpl. rewrite !app_nil_r.
      rewrite (queue_of_insert w w' _ _ Hlt Hqs), (running_of_insert w w' _ _ Hlt' Hws).
      rewrite Hfr, Hc, with_key_app, with_key_cons. simpl.
      assert (Hrun : running_of w i = []) by (unfold running_of; rewrite Hwi; reflexivity).
      assert (Hqueue : queue_of w i = j :: q) by (unfold queue_of; rewrite Hqi; reflexivity).
      destruct (String.eqb_spec (job_key j) k) as [Hjk|Hjk].
      * subst k. rewrite Hj in *. rewrite !decide_True by reflexivity.
        rewrite Hqueue, with_key_cons, String.eqb_refl in Hacc.
        rewrite Hrun in Hst. simpl in Hst. rewrite app_nil_r in Hst.
        rewrite with_key_cons, String.eqb_refl. simpl.
        split.
        -- exists rest. split; [|exact Hrest]. rewrite Hacc, <- app_assoc. reflexivity.
        -- rewrite Hst. reflexivity.
      * rewrite app_nil_r.
        destruct (decide (partition_of E k = i)) as [Heq|Hne].
        -- rewrite Heq, Hqueue, with_key_cons in Hacc.
           rewrite Heq, Hrun in Hst.
           destruct (String.eqb_spec (job_key j) k); [contradiction|].
           rewrite with_key_cons.
           destruct (String.eqb_spec (job_key j) k); [contradiction|].
           split; [exists rest; auto|exact Hst].
        -- split; [exists rest; auto|exact Hst].
  - (* a worker finishes a job *)
    simpl in Hstep.
    destruct (worker_end_effect _ _ _ _ Hstep)
      as (fr & e & Hwi & _ & Hws & Hqs & _ & Hc & _ & Hout).
    pose proof (lookup_lt_Some _ _ _ Hwi) as Hlt'.
    pose proof (Hw _ _ Hwi) as Hj.
    assert (Hhist : exists o, history w' = history w ++ [o; OFinished i (fr_job fr)]
                              /\ accepted_jobs [o] = [] /\ started_jobs [o] = []
                              /\ finished_jobs [o] = []).
    { destruct Hout as [(r & Hh & _)|(Hh & _)]; eexists; (split; [exact Hh|]); auto. }
    destruct Hhist as (o & Hhist & Ho1 & Ho2 & Ho3).
    split; [|split].
    + rewrite Hqs. exact Hq.
    + intros i' fr' Hi. rewrite Hws in Hi.
      destruct (decide (i' = i)) as [->|Hne].
      * rewrite list_lookup_insert_eq in Hi by exact Hlt'. discriminate.
      * rewrite list_lookup_insert_ne in Hi by congruence. eapply Hw, Hi.
    + intros k. destruct (Hk k) as [(rest & Hacc & Hrest) Hst].
      rewrite Hhist.
      replace (history w ++ [o; OFinished i (fr_job fr)])
        with (history w ++ [o] ++ [OFinished i (fr_job fr)]) by reflexivity.
      rewrite !accepted_jobs_app, !started_jobs_app, !finished_jobs_app, Ho1, Ho2, Ho3.
      simpl. rewrite !app_nil_r.
      rewrite (running_of_insert w w' _ _ Hlt' Hws), Hc.
      unfold queue_of. rewrite Hqs. fold (queue_of w (partition_of E k)).
      split; [exists rest; auto|].
      assert (Hrun : running_of w i = [fr_job fr])
        by (unfold running_of; rewrite Hwi; reflexivity).
      rewrite with_key_app, with_key_cons. simpl.
      destruct (String.eqb_spec (job_key (fr_job fr)) k) as [Hjk|Hjk].
      * subst k. rewrite Hj in *. rewrite decide_True by reflexivity.
        rewrite Hrun, with_key_cons, String.eqb_refl in Hst. simpl in Hst.
        rewrite app_nil_r. exact Hst.
      * rewrite app_nil_r. destruct (decide (partition_of E k = i)) as [Heq|Hne]; [|exact Hst].
        rewrite Heq, Hrun, with_key_cons in Hst.
        destruct (String.eqb_spec (job_key (fr_job fr)) k); [contradiction|].
        simpl in *. exact Hst.
  - simpl in Hstep. injection Hstep as <-. split; [exact Hq|]. split; [exact Hw|exact Hk].
  - simpl in Hstep. injection Hstep as <-. split; [exact Hq|]. split; [exact Hw|exact Hk].
  - simpl in Hstep. injection Hstep as <-. split; [exact Hq|]. split; [exact Hw|exact Hk].
  - simpl in Hstep. injection Hstep as <-. split; [exact Hq|]. split; [exact Hw|exact Hk].
  - (* Stop *)
    simpl in Hstep. injection Hstep as <-.
    split; [|split].
    + intros i q' Hi. destruct force; simpl in Hi; [|eapply Hq, Hi].
      rewrite list_lookup_fmap in Hi.
      destruct (queues w !! i); simpl in Hi; [|discriminate].
      injection Hi as <-. constructor.
    + destruct force; exact Hw.
    + intros k. destruct (Hk k) as [(rest & Hacc & Hrest) Hst].
      assert (Hh : history (Stop w force) = history w ++ [OStopped force])
        by (destruct force; reflexivity).
      rewrite Hh, accepted_jobs_app, started_jobs_app, finished_jobs_app.
      simpl. rewrite !app_nil_r.
      split.
      * destruct force.
        -- exists (with_key k (queue_of w (partition_of E k)) ++ rest).
           split; [|discriminate].
           rewrite Hacc. f_equal.
           unfold queue_of at 2. simpl. rewrite list_lookup_fmap.
           destruct (queues w !! partition_of E k); reflexivity.
        -- exists rest. split; [exact Hacc|discriminate].
      * destruct force; exact Hst.
Qed.

Lemma run_fifo_inv (E : Env) (tr : list action) (w w' : World) :
  fifo_inv E w -> run E w tr = Some w' -> fifo_inv E w'.
Proof. apply (run_invariant E (fifo_inv E)), step_fifo_inv. Qed.

Lemma NewURLNotifier_fifo_inv E p h t : fifo_inv E (NewURLNotifier p h t).
Proof.
  split; [|split].
  - intros i q Hi. unfold NewURLNotifier in Hi. cbn [queues] in Hi.
    apply lookup_replicate in Hi as [-> _]. constructor.
  - intros i fr Hi. unfold NewURLNotifier in Hi. cbn [workers] in Hi.
    apply lookup_replicate in Hi as [Hi _]. discriminate.
  - intros k. split; [exists []; split; [|reflexivity]|].
    + unfold queue_of, NewURLNotifier. cbn [queues history].
      destruct (replicate numWorkers [] !! partition_of E k) eqn:Hl; [|reflexivity].
      apply lookup_replicate in Hl as [-> _]. reflexivity.
    + unfold running_of, NewURLNotifier. cbn [workers history].
      destruct (replicate numWorkers None !! partition_of E k) eqn:Hl; [|reflexivity].
      apply lookup_replicate in Hl as [-> _]. reflexivity.
Qed.

(** C8: the jobs accepted under one key are started in the order they
    were accepted, and finished in the order they were started: for every
    key, the started jobs are a prefix of the accepted ones and the
    finished jobs a prefix of the started ones; while the pool is open,
    the accepted jobs not yet started are the ones waiting in the queue
    of the key's partition, in order.  Across keys there is no such
    order: in the execution [Demo.two_rooms] the event of the room
    accepted second is sent first. *)
Theorem delivery_order_per_key :
  (forall (E : Env) (p0 : URLNotifierParams) (h0 : gmap loc livekit.WebhookEvent)
          (t0 : Time) (tr : list action) (w : World),
     run E (NewURLNotifier p0 h0 t0) tr = Some w ->
     forall k : string,
       with_key k (started_jobs (history w))
         `prefix_of` with_key k (accepted_jobs (history w))
       /\ with_key k (finished_jobs (history w))
            `prefix_of` with_key k (started_jobs (history w))
       /\ (closed w = false ->
           with_key k (accepted_jobs (history w))
           = with_key k (started_jobs (history w))
             ++ with_key k (queue_of w (partition_of E k))))
  /\ (exists w,
        run (Demo.env 0) (NewURLNotifier (Demo.config 1 None) Demo.events 1000)
          Demo.two_rooms = Some w
        /\ accepted_jobs (history w) = [Demo.job 1; Demo.job_bb 4]
        /\ started_jobs (history w) = [Demo.job_bb 4; Demo.job 1]
        /\ finished_jobs (history w) = [Demo.job_bb 4; Demo.job 1]
        /\ job_key (Demo.job 1) <> job_key (Demo.job_bb 4)).
Proof.
  split.
  - intros E p0 h0 t0 tr w Hrun k.
    destruct (run_fifo_inv E tr _ w (NewURLNotifier_fifo_inv E p0 h0 t0) Hrun)
      as (_ & _ & Hk).
    destruct (Hk k) as [(rest & Hacc & Hrest) Hst].
    split; [|split].
    + eexists. exact Hacc.
    + eexists. exact Hst.
    + intros Hc. rewrite Hacc, (Hrest Hc), app_nil_r. reflexivity.
  - eexists. split; [vm_compute; reflexivity|]. repeat split. discriminate.
Qed.

Lemma delivery_order_per_key_witness :
  exists w,
    run (Demo.env 1) (NewURLNotifier (Demo.config 1 None) Demo.events 1000) Demo.outage
      = Some w
    /\ with_key "a" (started_jobs (history w))
         `prefix_of` with_key "a" (accepted_jobs (history w)).
Proof.
  destruct (run (Demo.env 1) (NewURLNotifier (Demo.config 1 None) Demo.events 1000)
              Demo.outage) as [w|] eqn:Hrun; [|vm_compute in Hrun; discriminate].
  exists w. split; [reflexivity|].
  apply (proj1 delivery_order_per_key (Demo.env 1) (Demo.config 1 None) Demo.events
           1000 Demo.outage w Hrun "a").
Defined.

(** ** Shutdown *)

Lemma finished_by_app i h h' : finished_by i (h ++ h') = finished_by i h ++ finished_by i h'.
Proof. apply omap_app. Qed.

Lemma run_app (E : Env) (tr1 tr2 : list action) (w : World) :
  run E w (tr1 ++ tr2) =
  match run E w tr1 with Some w1 => run E w1 tr2 | None => None end.
Proof.
  revert w. induction tr1 as [|a tr1 IH]; intros w; simpl; [reflexivity|].
  destruct (step E w a); [apply IH|reflexivity].
Qed.

Lemma no_kill_app tr1 tr2 : no_kill (tr1 ++ tr2) = no_kill tr1 && no_kill tr2.
Proof.
  induction tr1 as [|a tr1 IH]; simpl; [reflexivity|].
  destruct a; auto. destruct force; auto.
Qed.

(** Once the pool is closed, what a worker has finished, is running and
    has in its queue stays the same list, until a [Kill] empties the
    queue. *)
Lemma step_closed (E : Env) (w : World) (a : action) (w' : World) :
  closed w = true ->
  step E w a = Some w' ->
  closed w' = true
  /\ accepted_jobs (history w') = accepted_jobs (history w)
  /\ forall i,
       finished_by i (history w') ++ running_of w' i ++ queue_of w' i
       = finished_by i (history w) ++ running_of w i
         ++ match a with AStop true => [] | _ => queue_of w i end.
Proof.
  intros Hcl Hstep.
  destruct a as [ctx event|i0|i0|d|ak sk|f|h|force].
  - simpl in Hstep.
    destruct (QueueNotify E w ctx event) as [[w1 err]|] eqn:Hqn; [|discriminate].
    simpl in Hstep. injection Hstep as ->.
    destruct (QueueNotify_effect _ _ _ _ _ _ Hqn)
      as (Hws & _ & Hc & _ & [(Hhist & _ & Hqs)
         |[(j & q & Hhist & _ & Hcl' & _)|(j & Hhist & _ & Hqs)]]); [|congruence|];
      unfold queue_of, running_of; rewrite Hhist, Hqs, Hws, Hc;
      rewrite ?accepted_jobs_app; simpl; rewrite ?app_nil_r;
      (split; [exact Hcl|]); (split; [reflexivity|]); intros i;
      rewrite ?finished_by_app; simpl; rewrite ?app_nil_r; reflexivity.
  - simpl in Hstep.
    destruct (worker_begin_effect _ _ _ _ Hstep)
      as (j & q & e & fr & Hqi & Hwi & _ & Hfr & Hqs & Hws & _ & _ & Hc & _ & Hhist).
    pose proof (lookup_lt_Some _ _ _ Hqi) as Hlt.
    pose proof (lookup_lt_Some _ _ _ Hwi) as Hlt'.
    rewrite Hc, Hhist, accepted_jobs_app. simpl. rewrite app_nil_r.
    split; [exact Hcl|]. split; [reflexivity|]. intros i.
    rewrite finished_by_app. simpl. rewrite app_nil_r.
    rewrite (queue_of_insert w w' _ _ Hlt Hqs), (running_of_insert w w' _ _ Hlt' Hws).
    destruct (decide (i = i0)) as [->|Hne]; [|reflexivity].
    unfold running_of, queue_of. rewrite Hwi, Hqi, Hfr. reflexivity.
  - simpl in Hstep.
    destruct (worker_end_effect _ _ _ _ Hstep)
      as (fr & e & Hwi & _ & Hws & Hqs & _ & Hc & _ & Hout).
    pose proof (lookup_lt_Some _ _ _ Hwi) as Hlt'.
    assert (Hhist : exists o, history w' = history w ++ [o; OFinished i0 (fr_job fr)]
                              /\ accepted_jobs [o] = []
                              /\ forall i, finished_by i [o] = []).
    { destruct Hout as [(r & Hh & _)|(Hh & _)]; eexists; (split; [exact Hh|]); auto. }
    destruct Hhist as (o & Hhist & Ho1 & Ho2).
    rewrite Hc, Hhist.
    replace (history w ++ [o; OFinished i0 (fr_job fr)])
      with (history w ++ [o] ++ [OFinished i0 (fr_job fr)]) by reflexivity.
    split; [exact Hcl|].
    split; [rewrite !accepted_jobs_app, Ho1; simpl; rewrite app_nil_r; reflexivity|].
    intros i.
    rewrite !finished_by_app, Ho2. simpl.
    rewrite (running_of_insert w w' _ _ Hlt' Hws).
    unfold queue_of. rewrite Hqs.
    destruct (decide (i0 = i)) as [->|Hne].
    + rewrite decide_True by reflexivity. unfold running_of. rewrite Hwi.
      rewrite <- !app_assoc. reflexivity.
    + rewrite decide_False by congruence. rewrite app_nil_r. reflexivity.
  - injection Hstep as <-. auto.
  - injection Hstep as <-. auto.
  - injection Hstep as <-. auto.
  - injection Hstep as <-. auto.
  - injection Hstep as <-.
    assert (Hh : history (Stop w force) = history w ++ [OStopped force])
      by (destruct force; reflexivity).
    rewrite Hh, accepted_jobs_app. simpl. rewrite app_nil_r.
    split; [destruct force; reflexivity|]. split; [reflexivity|]. intros i.
    rewrite finished_by_app. simpl. rewrite app_nil_r.
    destruct force; [|reflexivity].
    unfold running_of, queue_of. simpl. rewrite list_lookup_fmap.
    destruct (queues w !! i); reflexivity.
Qed.

Lemma run_closed_no_kill (E : Env) (tr : list action) (w w' : World) :
  closed w = true ->
  run E w tr = Some w' ->
  no_kill tr = true ->
  closed w' = true
  /\ accepted_jobs (history w') = accepted_jobs (history w)
  /\ forall i,
       finished_by i (history w') ++ running_of w' i ++ queue_of w' i
       = finished_by i (history w) ++ running_of w i ++ queue_of w i.
Proof.
  revert w. induction tr as [|a tr IH]; intros w Hcl Hrun Hnk; simpl in Hrun.
  - injection Hrun as <-. auto.
  - destruct (step E w a) as [w1|] eqn:Hstep; [|discriminate].
    destruct (step_closed E w a w1 Hcl Hstep) as (Hcl1 & Hacc1 & Hcons1).
    assert (Hnk' : no_kill tr = true /\ a <> AStop true).
    { destruct a; simpl in Hnk; auto; try (split; [exact Hnk|discriminate]).
      destruct force; [discriminate|]. split; [exact Hnk|discriminate]. }
    destruct Hnk' as [Hnk' Ha].
    destruct (IH w1 Hcl1 Hrun Hnk') as (Hcl2 & Hacc2 & Hcons2).
    split; [exact Hcl2|]. split; [congruence|]. intros i.
    rewrite Hcons2, Hcons1. destruct a; auto. destruct force; [congruence|reflexivity].
Qed.

(** With the pool closed and its queues empty, nothing is started any
    more. *)
Lemma step_killed (E : Env) (w : World) (a : action) (w' : World) :
  closed w = true ->
  (forall i, queue_of w i = []) ->
  step E w a = Some w' ->
  started_jobs (history w') = started_jobs (history w)
  /\ forall i, queue_of w' i = [].
Proof.
  intros Hcl Hq Hstep.
  destruct a as [ctx event|i0|i0|d|ak sk|f|h|force].
  - simpl in Hstep.
    destruct (QueueNotify E w ctx event) as [[w1 err]|] eqn:Hqn; [|discriminate].
    simpl in Hstep. injection Hstep as ->.
    destruct (QueueNotify_effect _ _ _ _ _ _ Hqn)
      as (_ & _ & _ & _ & [(Hhist & _ & Hqs)
         |[(j & q & Hhist & _ & Hcl' & _)|(j & Hhist & _ & Hqs)]]); [|congruence|];
      unfold queue_of; rewrite Hhist, Hqs, ?started_jobs_app; simpl;
      rewrite ?app_nil_r; split; auto.
  - exfalso. simpl in Hstep.
    destruct (worker_begin_effect _ _ _ _ Hstep) as (j & q & e & fr & Hqi & _).
    specialize (Hq i0). unfold queue_of in Hq. rewrite Hqi in Hq. discriminate.
  - simpl in Hstep.
    destruct (worker_end_effect _ _ _ _ Hstep)
      as (fr & e & _ & _ & _ & Hqs & _ & _ & _ & Hout).
    unfold queue_of. rewrite Hqs.
    destruct Hout as [(r & Hh & _)|(Hh & _)]; rewrite Hh, started_jobs_app; simpl;
      rewrite app_nil_r; split; auto.
  - injection Hstep as <-. auto.
  - injection Hstep as <-. auto.
  - injection Hstep as <-. auto.
  - injection Hstep as <-. auto.
  - injection Hstep as <-.
    assert (Hh : history (Stop w force) = history w ++ [OStopped force])
      by (destruct force; reflexivity).
    rewrite Hh, started_jobs_app. simpl. rewrite app_nil_r. split; [reflexivity|].
    intros i. destruct force; [|apply Hq].
    unfold queue_of. simpl. rewrite list_lookup_fmap.
    destruct (queues w !! i); reflexivity.
Qed.

Lemma run_killed (E : Env) (tr : list action) (w w' : World) :
  closed w = true ->
  (forall i, queue_of w i = []) ->
  run E w tr = Some w' ->
  started_jobs (history w') = started_jobs (history w)
  /\ forall i,
       finished_by i (history w') ++ running_of w' i
       = finished_by i (history w) ++ running_of w i.
Proof.
  revert w. induction tr as [|a tr IH]; intros w Hcl Hq Hrun; simpl in Hrun.
  - injection Hrun as <-. auto.
  - destruct (step E w a) as [w1|] eqn:Hstep; [|discriminate].
    destruct (step_closed E w a w1 Hcl Hstep) as (Hcl1 & _ & Hcons1).
    destruct (step_killed E w a w1 Hcl Hq Hstep) as (Hst1 & Hq1).
    destruct (IH w1 Hcl1 Hq1 Hrun) as (Hst2 & Hcons2).
    split; [congruence|]. intros i.
    rewrite Hcons2. specialize (Hcons1 i). rewrite Hq, Hq1, !app_nil_r in Hcons1.
    rewrite Hcons1. destruct a; rewrite ?app_nil_r; auto.
    destruct force; rewrite ?app_nil_r; reflexivity.
Qed.

(** *** Draining *)

Lemma task_epilogue_total (w : World) (fr : Frame) (err : option error) :
  is_Some (heap w !! job_event (fr_job fr)) ->
  exists w', task_epilogue w fr err = Some w'.
Proof.
  intros [e He]. unfold task_epilogue. rewrite He.
  destruct (getProcessedHook _); [|eauto].
  destruct (apply_FieldsHook _ _). eauto.
Qed.

Lemma worker_end_total (E : Env) (w : World) (i : nat) (fr : Frame) :
  workers w !! i = Some (Some fr) ->
  is_Some (heap w !! job_event (fr_job fr)) ->
  exists w', worker_end E w i = Some w'.
Proof.
  intros Hwi [e He]. unfold worker_end. rewrite Hwi.
  destruct (send_rest_total E w _ e He) as (w1 & err & Hs). rewrite Hs.
  assert (Hh : heap w1 = heap w).
  { destruct (send_rest_cases E w _ e w1 err He Hs)
      as [(er & _ & -> & _)|[(er & enc & _ & -> & _)|[(er & enc & tok & _ & -> & _)
         |[(er & enc & tok & _ & -> & _)|(enc & tok & res & _ & -> & _)]]]];
      reflexivity. }
  destruct (task_epilogue_total w1 fr err) as (w2 & Hepi).
  { rewrite Hh, He. eauto. }
  rewrite Hepi. eauto.
Qed.

Lemma worker_begin_total (E : Env) (w : World) (i : nat) (j : Job) (q : list Job) :
  queues w !! i = Some (j :: q) ->
  workers w !! i = Some None ->
  is_Some (heap w !! job_event j) ->
  exists w', worker_begin E w i = Some w'.
Proof.
  intros Hqi Hwi [e He]. unfold worker_begin. rewrite Hqi, Hwi.
  unfold task_prologue. rewrite He. unfold send_swap. simpl. rewrite He. eauto.
Qed.

Lemma step_pool_wf (E : Env) (w : World) (a : action) (w' : World) :
  pool_wf w -> step E w a = Some w' -> pool_wf w'.
Proof.
  intros (Hlen & Hq & Hw) Hstep.
  destruct a as [ctx event|i0|i0|d|ak sk|f|h|force].
  - simpl in Hstep.
    destruct (QueueNotify E w ctx event) as [[w1 err]|] eqn:Hqn; [|discriminate].
    simpl in Hstep. injection Hstep as ->.
    destruct (QueueNotify_effect _ _ _ _ _ _ Hqn)
      as (Hws & Hh & _ & _ & [(_ & _ & Hqs)
         |[(j & q & _ & _ & _ & Hqi & Hqs & Hj)|(j & _ & _ & Hqs)]]);
      unfold pool_wf; rewrite Hws, Hh, Hqs; auto.
    pose proof (lookup_lt_Some _ _ _ Hqi) as Hlt.
    rewrite length_insert. split; [exact Hlen|]. split; [|exact Hw].
    intros i q' Hi.
    destruct (decide (i = partition_of E (job_key j))) as [->|Hne].
    + rewrite list_lookup_insert_eq in Hi by exact Hlt. injection Hi as <-.
      apply Forall_app. split; [eapply Hq, Hqi|]. repeat constructor. exact Hj.
    + rewrite list_lookup_insert_ne in Hi by congruence. eapply Hq, Hi.
  - simpl in Hstep.
    destruct (worker_begin_effect _ _ _ _ Hstep)
      as (j & q & e & fr & Hqi & Hwi & He & Hfr & Hqs & Hws & Hh & _).
    pose proof (lookup_lt_Some _ _ _ Hqi) as Hlt.
    pose proof (lookup_lt_Some _ _ _ Hwi) as Hlt'.
    assert (Hdom : forall p, is_Some (heap w !! p) -> is_Some (heap w' !! p)).
    { intros p Hp. rewrite Hh.
      destruct (decide (job_event j = p)) as [->|Hne].
      - rewrite lookup_insert_eq. eauto.
      - rewrite lookup_insert_ne by exact Hne. exact Hp. }
    pose proof (Hq _ _ Hqi) as Hjq. apply Forall_cons in Hjq as [Hj Hjq].
    unfold pool_wf. rewrite Hqs, Hws, !length_insert.
    split; [exact Hlen|]. split.
    + intros i q' Hi.
      destruct (decide (i = i0)) as [->|Hne].
      * rewrite list_lookup_insert_eq in Hi by exact Hlt. injection Hi as <-.
        eapply Forall_impl; [exact Hjq|]. intros x; apply Hdom.
      * rewrite list_lookup_insert_ne in Hi by congruence.
        eapply Forall_impl; [eapply Hq, Hi|]. intros x; apply Hdom.
    + intros i fr' Hi.
      destruct (decide (i = i0)) as [->|Hne].
      * rewrite list_lookup_insert_eq in Hi by exact Hlt'. injection Hi as <-.
        rewrite Hfr. apply Hdom, Hj.
      * rewrite list_lookup_insert_ne in Hi by congruence. eapply Hdom, Hw, Hi.
  - simpl in Hstep.
    destruct (worker_end_effect _ _ _ _ Hstep)
      as (fr & e & Hwi & _ & Hws & Hqs & Hh & _).
    pose proof (lookup_lt_Some _ _ _ Hwi) as Hlt'.
    unfold pool_wf. rewrite Hqs, Hws, Hh, length_insert.
    split; [exact Hlen|]. split; [exact Hq|].
    intros i fr' Hi.
    destruct (decide (i = i0)) as [->|Hne].
    + rewrite list_lookup_insert_eq in Hi by exact Hlt'. discriminate.
    + rewrite list_lookup_insert_ne in Hi by congruence. eapply Hw, Hi.
  - injection Hstep as <-. split; auto.
  - injection Hstep as <-. split; auto.
  - injection Hstep as <-. split; auto.
  - injection Hstep as <-. split; auto.
  - injection Hstep as <-. destruct force; [|split; auto].
    unfold pool_wf. simpl. rewrite length_fmap. split; [exact Hlen|]. split; [|exact Hw].
    intros i q Hi. rewrite list_lookup_fmap in Hi.
    destruct (queues w !! i); [|discriminate]. injection Hi as <-. constructor.
Qed.

Lemma run_pool_wf (E : Env) (tr : list action) (w w' : World) :
  pool_wf w -> run E w tr = Some w' -> pool_wf w'.
Proof. apply (run_invariant E pool_wf), step_pool_wf. Qed.

Lemma NewURLNotifier_pool_wf p h t : pool_wf (NewURLNotifier p h t).
Proof.
  split; [|split].
  - unfold NewURLNotifier. cbn [queues workers]. rewrite !length_replicate. reflexivity.
  - intros i q Hi. unfold NewURLNotifier in Hi. cbn [queues] in Hi.
    apply lookup_replicate in Hi as [-> _]. constructor.
  - intros i fr Hi. unfold NewURLNotifier in Hi. cbn [workers] in Hi.
    apply lookup_replicate in Hi as [Hi _]. discriminate.
Qed.

Lemma step_workers_length (E : Env) (w : World) (a : action) (w' : World) :
  step E w a = Some w' -> length (workers w') = length (workers w).
Proof.
  intros Hstep. destruct a as [ctx event|i0|i0|d|ak sk|f|h|force].
  - simpl in Hstep.
    destruct (QueueNotify E w ctx event) as [[w1 err]|] eqn:Hqn; [|discriminate].
    simpl in Hstep. injection Hstep as ->.
    destruct (QueueNotify_effect _ _ _ _ _ _ Hqn) as (-> & _). reflexivity.
  - destruct (worker_begin_effect _ _ _ _ Hstep)
      as (j & q & e & fr & _ & _ & _ & _ & _ & -> & _). apply length_insert.
  - destruct (worker_end_effect _ _ _ _ Hstep) as (fr & e & _ & _ & -> & _).
    apply length_insert.
  - injection Hstep as <-. reflexivity.
  - injection Hstep as <-. reflexivity.
  - injection Hstep as <-. reflexivity.
  - injection Hstep as <-. reflexivity.
  - injection Hstep as <-. destruct force; reflexivity.
Qed.

Lemma run_workers_length (E : Env) (tr : list action) (w w' : World) :
  run E w tr = Some w' -> length (workers w') = length (workers w).
Proof.
  intros Hrun.
  apply (run_invariant E (fun w1 => length (workers w1) = length (workers w))) with tr w;
    auto.
  intros w0 a w1 H0 Hs. rewrite (step_workers_length E w0 a w1 Hs). exact H0.
Qed.

(** An idle worker can work its queue off. *)
Lemma drain_idle (E : Env) (n : nat) :
  forall (w : World) (i : nat) (q : list Job),
    pool_wf w ->
    workers w !! i = Some None ->
    queues w !! i = Some q ->
    length q = n ->
    exists tr w',
      run E w tr = Some w' /\ no_kill tr = true
      /\ queues w' !! i = Some [] /\ workers w' !! i = Some None
      /\ forall i', i' <> i ->
           queues w' !! i' = queues w !! i' /\ workers w' !! i' = workers w !! i'.
Proof.
  induction n as [|n IH]; intros w i q Hwf Hwi Hqi Hlen.
  - destruct q; [|discriminate]. exists [], w. simpl. repeat split; auto.
  - destruct q as [|j q]; [discriminate|]. injection Hlen as Hlen.
    destruct Hwf as (Hl & Hq & Hw).
    pose proof (Hq _ _ Hqi) as Hjq. apply Forall_cons in Hjq as [Hj _].
    destruct (worker_begin_total E w i j q Hqi Hwi Hj) as (w1 & Hb).
    destruct (worker_begin_effect _ _ _ _ Hb)
      as (j' & q' & e & fr & Hqi' & _ & _ & Hfr & Hqs & Hws & _).
    rewrite Hqi in Hqi'. injection Hqi' as <- <-.
    pose proof (lookup_lt_Some _ _ _ Hqi) as Hlt.
    pose proof (lookup_lt_Some _ _ _ Hwi) as Hlt'.
    assert (Hwf1 : pool_wf w1) by (apply (step_pool_wf E w (ABegin i)); [split; auto|exact Hb]).
    assert (Hw1i : workers w1 !! i = Some (Some fr)).
    { rewrite Hws. apply list_lookup_insert_eq, Hlt'. }
    destruct (worker_end_total E w1 i fr Hw1i) as (w2 & He).
    { destruct Hwf1 as (_ & _ & Hw1). eapply Hw1, Hw1i. }
    destruct (worker_end_effect _ _ _ _ He)
      as (fr' & e' & _ & _ & Hws2 & Hqs2 & _).
    assert (Hwf2 : pool_wf w2) by (apply (step_pool_wf E w1 (AEnd i)); assumption).
    assert (Hw2i : workers w2 !! i = Some None).
    { rewrite Hws2. apply list_lookup_insert_eq. rewrite Hws, length_insert. exact Hlt'. }
    assert (Hq2i : queues w2 !! i = Some q).
    { rewrite Hqs2, Hqs. apply list_lookup_insert_eq, Hlt. }
    destruct (IH w2 i q Hwf2 Hw2i Hq2i Hlen) as (tr & w' & Hrun & Hnk & Hq' & Hw' & Hoth).
    exists (ABegin i :: AEnd i :: tr), w'. simpl.
    change (worker_begin E w i) with (step E w (ABegin i)) in Hb.
    simpl in Hb. rewrite Hb, He.
    split; [exact Hrun|]. split; [exact Hnk|]. split; [exact Hq'|]. split; [exact Hw'|].
    intros i' Hne. destruct (Hoth i' Hne) as [-> ->].
    rewrite Hqs2, Hqs, Hws2, Hws.
    rewrite !list_lookup_insert_ne by congruence. auto.
Qed.

Lemma drain_partition (E : Env) (w : World) (i : nat) :
  pool_wf w ->
  (i < length (workers w))%nat ->
  exists tr w',
    run E w tr = Some w' /\ no_kill tr = true
    /\ queues w' !! i = Some [] /\ workers w' !! i = Some None
    /\ forall i', i' <> i ->
         queues w' !! i' = queues w !! i' /\ workers w' !! i' = workers w !! i'.
Proof.
  intros Hwf Hlt.
  destruct (lookup_lt_is_Some_2 _ _ Hlt) as [f Hwi].
  assert (Hltq : (i < length (queues w))%nat) by (destruct Hwf as [-> _]; exact Hlt).
  destruct (lookup_lt_is_Some_2 _ _ Hltq) as [q Hqi].
  destruct f as [fr|].
  - destruct (worker_end_total E w i fr Hwi) as (w1 & He).
    { destruct Hwf as (_ & _ & Hw). eapply Hw, Hwi. }
    destruct (worker_end_effect _ _ _ _ He) as (fr' & e' & _ & _ & Hws & Hqs & _).
    assert (Hwf1 : pool_wf w1) by (apply (step_pool_wf E w (AEnd i)); assumption).
    assert (Hw1i : workers w1 !! i = Some None).
    { rewrite Hws. apply list_lookup_insert_eq, Hlt. }
    assert (Hq1i : queues w1 !! i = Some q) by (rewrite Hqs; exact Hqi).
    destruct (drain_idle E (length q) w1 i q Hwf1 Hw1i Hq1i eq_refl)
      as (tr & w' & Hrun & Hnk & Hq' & Hw' & Hoth).
    exists (AEnd i :: tr), w'. simpl. rewrite He.
    split; [exact Hrun|]. split; [exact Hnk|]. split; [exact Hq'|]. split; [exact Hw'|].
    intros i' Hne. destruct (Hoth i' Hne) as [-> ->].
    rewrite Hqs, Hws. rewrite list_lookup_insert_ne by congruence. auto.
  - apply (drain_idle E (length q) w i q Hwf Hwi Hqi eq_refl).
Qed.

Lemma drain_upto (E : Env) (k : nat) :
  forall w : World,
    pool_wf w ->
    (k <= length (workers w))%nat ->
    exists tr w',
      run E w tr = Some w' /\ no_kill tr = true
      /\ forall i, (i < k)%nat ->
           queues w' !! i = Some [] /\ workers w' !! i = Some None.
Proof.
  induction k as [|k IH]; intros w Hwf Hk.
  - exists [], w. simpl. split; [reflexivity|]. split; [reflexivity|]. intros i Hi. lia.
  - destruct (IH w Hwf) as (tr1 & w1 & Hrun1 & Hnk1 & Hrest1); [lia|].
    assert (Hwf1 : pool_wf w1) by (eapply run_pool_wf; eauto).
    assert (Hlen1 : length (workers w1) = length (workers w))
      by (eapply run_workers_length; eauto).
    destruct (drain_partition E w1 k Hwf1) as (tr2 & w2 & Hrun2 & Hnk2 & Hqk & Hwk & Hoth);
      [lia|].
    exists (tr1 ++ tr2), w2.
    rewrite run_app, Hrun1, no_kill_app, Hnk1, Hnk2.
    split; [exact Hrun2|]. split; [reflexivity|].
    intros i Hi. destruct (decide (i = k)) as [->|Hne]; [auto|].
    destruct (Hoth i Hne) as [-> ->]. apply Hrest1. lia.
Qed.

Lemma drain_exists (E : Env) (w : World) :
  pool_wf w ->
  exists tr w', run E w tr = Some w' /\ no_kill tr = true /\ at_rest w'.
Proof.
  intros Hwf.
  destruct (drain_upto E (length (workers w)) w Hwf (le_n _))
    as (tr & w' & Hrun & Hnk & Hrest).
  exists tr, w'. split; [exact Hrun|]. split; [exact Hnk|].
  assert (Hwf' : pool_wf w') by (eapply run_pool_wf; eauto).
  assert (Hlen : length (workers w') = length (workers w))
    by (eapply run_workers_length; eauto).
  split; apply Forall_lookup; intros i x Hi.
  - pose proof (lookup_lt_Some _ _ _ Hi) as Hlt.
    destruct Hwf' as (Hl & _). rewrite Hl, Hlen in Hlt.
    destruct (Hrest i Hlt) as [Hq _]. congruence.
  - pose proof (lookup_lt_Some _ _ _ Hi) as Hlt. rewrite Hlen in Hlt.
    destruct (Hrest i Hlt) as [_ Hw]. congruence.
Qed.

(** C9: [Stop(false)] closes the pool and discards nothing; from then
    on, as long as nobody kills the pool, every worker keeps the jobs it
    had (finished, running or waiting), no job is accepted, and when the
    pool is at rest, which is when the call returns, every job that was
    running or waiting at the call has been run to its end; the pool can
    always get there.  [Stop(true)] closes the pool and empties the
    queues: no job is started after it, and a worker finishes at most the
    job it was running at the call. *)
Theorem Stop_drains_or_kills (E : Env) (p0 : URLNotifierParams)
    (h0 : gmap loc livekit.WebhookEvent) (t0 : Time) (tr0 : list action) (w : World) :
  run E (NewURLNotifier p0 h0 t0) tr0 = Some w ->
  (closed (Stop w false) = true
   /\ queues (Stop w false) = queues w
   /\ workers (Stop w false) = workers w
   /\ (forall tr w2,
         run E (Stop w false) tr = Some w2 ->
         no_kill tr = true ->
         accepted_jobs (history w2) = accepted_jobs (history w)
         /\ (forall i,
               finished_by i (history w2) ++ running_of w2 i ++ queue_of w2 i
               = finished_by i (history w) ++ running_of w i ++ queue_of w i)
         /\ (at_rest w2 ->
             forall i,
               finished_by i (history w2)
               = finished_by i (history w) ++ running_of w i ++ queue_of w i))
   /\ (exists tr w2,
         run E (Stop w false) tr = Some w2 /\ no_kill tr = true /\ at_rest w2))
  /\ (closed (Stop w true) = true
      /\ (forall i, queue_of (Stop w true) i = [])
      /\ workers (Stop w true) = workers w
      /\ (forall tr w2,
            run E (Stop w true) tr = Some w2 ->
            started_jobs (history w2) = started_jobs (history w)
            /\ forall i,
                 finished_by i (history w2) ++ running_of w2 i
                 = finished_by i (history w) ++ running_of w i)).
Proof.
  intros Hrun0.
  assert (Hwf : pool_wf w)
    by (eapply run_pool_wf; [apply NewURLNotifier_pool_wf|exact Hrun0]).
  assert (Hh : forall force, history (Stop w force) = history w ++ [OStopped force])
    by (intros [|]; reflexivity).
  split.
  - split; [reflexivity|]. split; [reflexivity|]. split; [reflexivity|]. split.
    + intros tr w2 Hrun Hnk.
      destruct (run_closed_no_kill E tr (Stop w false) w2 eq_refl Hrun Hnk)
        as (_ & Hacc & Hcons).
      rewrite Hh, accepted_jobs_app in Hacc. simpl in Hacc. rewrite app_nil_r in Hacc.
      assert (Hcons' : forall i,
        finished_by i (history w2) ++ running_of w2 i ++ queue_of w2 i
        = finished_by i (history w) ++ running_of w i ++ queue_of w i).
      { intros i. rewrite Hcons, Hh, finished_by_app. simpl. rewrite app_nil_r.
        reflexivity. }
      split; [exact Hacc|]. split; [exact Hcons'|].
      intros [Hq Hw] i. rewrite <- Hcons'.
      assert (Hqi : queue_of w2 i = []).
      { unfold queue_of. destruct (queues w2 !! i) as [q|] eqn:Hl; [|reflexivity].
        simpl. eapply Forall_lookup_1 in Hq; [|exact Hl]. exact Hq. }
      assert (Hri : running_of w2 i = []).
      { unfold running_of. destruct (workers w2 !! i) as [f|] eqn:Hl; [|reflexivity].
        eapply Forall_lookup_1 in Hw; [|exact Hl]. simpl in Hw. rewrite Hw. reflexivity. }
      rewrite Hqi, Hri, !app_nil_r. reflexivity.
    + apply drain_exists. apply (step_pool_wf E w (AStop false)); [exact Hwf|reflexivity].
  - split; [reflexivity|].
    assert (Hq : forall i, queue_of (Stop w true) i = []).
    { intros i. unfold queue_of. simpl. rewrite list_lookup_fmap.
      destruct (queues w !! i); reflexivity. }
    split; [exact Hq|]. split; [reflexivity|].
    intros tr w2 Hrun.
    destruct (run_killed E tr (Stop w true) w2 eq_refl Hq Hrun) as (Hst & Hcons).
    rewrite Hh, started_jobs_app in Hst. simpl in Hst. rewrite app_nil_r in Hst.
    split; [exact Hst|]. intros i.
    rewrite Hcons, Hh, finished_by_app. simpl. rewrite app_nil_r. reflexivity.
Qed.

Lemma Stop_drains_or_kills_witness :
  exists w,
    run (Demo.env 0) (NewURLNotifier (Demo.config 5 None) Demo.events 1000) Demo.backlog
      = Some w
    /\ (exists tr w2,
          run (Demo.env 0) (Stop w false) tr = Some w2 /\ no_kill tr = true /\ at_rest w2)
    /\ (forall i, queue_of (Stop w true) i = []).
Proof.
  destruct (run (Demo.env 0) (NewURLNotifier (Demo.config 5 None) Demo.events 1000)
              Demo.backlog) as [w|] eqn:Hrun; [|vm_compute in Hrun; discriminate].
  exists w. split; [reflexivity|].
  destruct (Stop_drains_or_kills (Demo.env 0) (Demo.config 5 None) Demo.events 1000
              Demo.backlog w Hrun)
    as ((_ & _ & _ & _ & Hex) & (_ & Hq & _)).
  split; [exact Hex|exact Hq].
Defined.

(** * Further properties of the notifier *)

(** ** The records a step leaves *)

Lemma QueueNotify_records (E : Env) (w : World) (ctx : Ctx) (event : loc)
    (w' : World) (err : option error) :
  QueueNotify E w ctx event = Some (w', err) ->
  exists e,
    heap w !! event = Some e
    /\ processedHook w' = processedHook w /\ params w' = params w
    /\ nfilter w' = nfilter w /\ now w' = now w
    /\ httpCalls w' = httpCalls w /\ closedBodies w' = closedBodies w
    /\ (((history w' = history w
          \/ history w' = history w ++ [OAccepted (job_of E w ctx event e)])
         /\ logs w' = logs w /\ hookCalls w' = hookCalls w
         /\ fieldsHookCalls w' = fieldsHookCalls w)
        \/ (history w' = history w ++ [ORejected (job_of E w ctx event e)]
            /\ logs w' = logs w ++
                 [{| log_level := Infow; log_msg := "dropped webhook"; log_err := None;
                     log_fields := logFields E e (URL (params w)) |}]
            /\ hookCalls w' = hookCalls w ++ hook_call w ctx (dropped_outcome w e)
            /\ fieldsHookCalls w' = fieldsHookCalls w ++ fields_call w (dropped_outcome w e))).
Proof.
  unfold QueueNotify.
  destruct (heap w !! event) as [e|] eqn:He; [|discriminate].
  intros Hq. exists e. split; [reflexivity|]. revert Hq.
  destruct (negb _);
    [intros [= <- _]; repeat (split; [reflexivity|]); left; auto|].
  fold (job_of E w ctx event e).
  destruct (pool_Submit E w _) as [w1 [|]] eqn:Hsub.
  - intros [= <- _].
    destruct (pool_Submit_true _ _ _ _ Hsub) as (q & _ & _ & _ & ->).
    simpl. repeat (split; [reflexivity|]). left. auto.
  - rewrite (pool_Submit_false _ _ _ _ Hsub).
    unfold getProcessedHook, apply_FieldsHook, hook_call, fields_call, through_FieldsHook.
    simpl.
    destruct (processedHook w) eqn:Hph; [destruct (FieldsHook (params w)) eqn:Hfh|];
      intros [= <- _]; simpl; rewrite ?app_nil_r, ?Hph, ?Hfh;
      repeat (split; [reflexivity|]); right; repeat split.
Qed.

Lemma worker_begin_records (E : Env) (w : World) (i : nat) (w' : World) :
  worker_begin E w i = Some w' ->
  processedHook w' = processedHook w /\ params w' = params w
  /\ nfilter w' = nfilter w /\ now w' = now w
  /\ httpCalls w' = httpCalls w /\ closedBodies w' = closedBodies w
  /\ logs w' = logs w /\ hookCalls w' = hookCalls w
  /\ fieldsHookCalls w' = fieldsHookCalls w.
Proof.
  unfold worker_begin.
  destruct (queues w !! i) as [[|j q]|]; try discriminate.
  destruct (workers w !! i) as [[fr0|]|]; try discriminate.
  destruct (task_prologue E w j) as [fr|]; [|discriminate].
  unfold send_swap. simpl.
  destruct (heap w !! job_event j); [|discriminate].
  intros [= <-]. repeat split.
Qed.

(** The ways the send of a closure ends, with what it leaves. *)
Lemma worker_end_records (E : Env) (w : World) (i : nat) (w' : World) :
  worker_end E w i = Some w' ->
  exists fr e err,
    workers w !! i = Some (Some fr)
    /\ heap w !! job_event (fr_job fr) = Some e
    /\ processedHook w' = processedHook w /\ params w' = params w
    /\ nfilter w' = nfilter w /\ now w' = now w
    /\ logs w' = logs w ++ [send_log fr (now w) err]
    /\ hookCalls w' = hookCalls w ++ hook_call w (job_ctx (fr_job fr)) (sent_outcome w fr e err)
    /\ fieldsHookCalls w' = fieldsHookCalls w ++ fields_call w (sent_outcome w fr e err)
    /\ ((err <> None /\ httpCalls w' = httpCalls w /\ closedBodies w' = closedBodies w
         /\ history w' = history w ++
              [OFailed (job_event (fr_job fr)); OFinished i (fr_job fr)])
        \/ (exists encoded token,
              protojson_Marshal E e = Ok encoded
              /\ AccessToken_ToJWT E (signing_token E w encoded) (now w) = Ok token
              /\ httpCalls w' = httpCalls w ++ [signed_request E w encoded token]
              /\ match client_Do E (length (httpCalls w))
                         (signed_request E w encoded token) with
                 | Ok res =>
                     err = None /\ closedBodies w' = closedBodies w ++ [res]
                     /\ history w' = history w ++
                          [OSent (job_event (fr_job fr)) e
                             (signed_request E w encoded token);
                           OFinished i (fr_job fr)]
                 | Err er =>
                     err = Some er /\ closedBodies w' = closedBodies w
                     /\ history w' = history w ++
                          [OFailed (job_event (fr_job fr)); OFinished i (fr_job fr)]
                 end)).
Proof.
  unfold worker_end.
  destruct (workers w !! i) as [[fr|]|]; try discriminate.
  destruct (send_rest E w (job_event (fr_job fr))) as [[w1 err]|] eqn:Hs; [|discriminate].
  destruct (task_epilogue w1 fr err) as [w2|] eqn:Hepi; [|discriminate].
  intros [= <-].
  destruct (heap w !! job_event (fr_job fr)) as [e|] eqn:He.
  2:{ unfold send_rest in Hs. rewrite He in Hs. discriminate. }
  exists fr, e, err. split; [reflexivity|]. split; [exact He|].
  unfold hook_call, fields_call, through_FieldsHook, sent_outcome, send_log.
  destruct (send_rest_cases E w _ e w1 err He Hs)
    as [(er & -> & -> & _)|[(er & enc & -> & -> & _)|[(er & enc & tok & -> & -> & _)
       |[(er & enc & tok & -> & -> & Hm & Ht & _ & Hd)
        |(enc & tok & res & -> & -> & Hm & Ht & _ & Hd)]]]];
    unfold task_epilogue in Hepi; simpl in Hepi; rewrite He in Hepi;
    unfold getProcessedHook, apply_FieldsHook in Hepi; simpl in Hepi;
    (destruct (processedHook w) eqn:Hph; [destruct (FieldsHook (params w)) eqn:Hfh|]);
    injection Hepi as <-; simpl; rewrite ?app_nil_r, ?Hph, ?Hfh;
    repeat (split; [reflexivity|]); rewrite <- ?app_assoc; simpl;
    try (left; repeat split; congruence);
    try (right; exists enc, tok; rewrite Hd; repeat split; assumption).
Qed.

(** ** Executions under a condition on the actions *)


(** ** The accepted path of [QueueNotify] *)

(** X1: an allowed event, submitted while the pool takes work and the
    queue of the partition of its key is below capacity, is queued:
    [QueueNotify] returns [nil], the job (key, context, pointer, time of
    submission) is appended at the tail of that queue, and nothing else
    happens: the counter, the event, the workers, the log, the two hooks
    and the HTTP client are left alone. *)
Theorem QueueNotify_accepted (E : Env) (w : World) (ctx : Ctx) (event : loc)
    (e : livekit.WebhookEvent) (q : list Job) :
  heap w !! event = Some e ->
  filter_IsAllowed E (nfilter w) (livekit.Event e) = true ->
  closed w = false ->
  queues w !! partition_of E (eventKey E e) = Some q ->
  Z.of_nat (length q) < QueueSize (params w) ->
  exists w',
    QueueNotify E w ctx event = Some (w', None)
    /\ queues w' =
         <[partition_of E (eventKey E e) := q ++ [job_of E w ctx event e]]> (queues w)
    /\ workers w' = workers w /\ heap w' = heap w
    /\ dropped w' = dropped w /\ logs w' = logs w
    /\ hookCalls w' = hookCalls w /\ fieldsHookCalls w' = fieldsHookCalls w
    /\ httpCalls w' = httpCalls w.
Proof.
  intros He Hf Hc Hq Hlen. unfold QueueNotify. rewrite He, Hf. simpl.
  unfold pool_Submit. simpl. rewrite Hq, Hc. simpl.
  destruct (Z.leb_spec (QueueSize (params w)) (Z.of_nat (length q))); [lia|].
  eexists. split; [reflexivity|]. repeat split.
Qed.

Lemma QueueNotify_accepted_witness :
  exists w',
    QueueNotify (Demo.env 0) (Demo.world 1 None) 0%nat 1%positive = Some (w', None)
    /\ queue_of w' 1 = [Demo.job 1].
Proof.
  destruct (QueueNotify_accepted (Demo.env 0) (Demo.world 1 None) 0%nat 1%positive
              (Demo.event "room_started" "EV_1" 1) [])
    as (w' & Hq & Hqs & _); try reflexivity.
  exists w'. split; [exact Hq|]. unfold queue_of. rewrite Hqs. reflexivity.
Defined.

(** ** Bounded queues *)

Lemma QueueNotify_queues (E : Env) (w : World) (ctx : Ctx) (event : loc)
    (w' : World) (err : option error) :
  QueueNotify E w ctx event = Some (w', err) ->
  queues w' = queues w
  \/ exists j q,
       queues w !! partition_of E (job_key j) = Some q
       /\ Z.of_nat (length q) < QueueSize (params w)
       /\ queues w' = <[partition_of E (job_key j) := q ++ [j]]> (queues w).
Proof.
  unfold QueueNotify.
  destruct (heap w !! event) as [e|]; [|discriminate].
  destruct (negb _); [intros [= <- _]; auto|].
  destruct (pool_Submit E w _) as [w1 [|]] eqn:Hsub.
  - intros [= <- _].
    destruct (pool_Submit_true _ _ _ _ Hsub) as (q & Hq & _ & Hlen & ->).
    right. eauto.
  - rewrite (pool_Submit_false _ _ _ _ Hsub).
    unfold getProcessedHook, apply_FieldsHook. simpl.
    destruct (processedHook w); [destruct (FieldsHook (params w))|];
      intros [= <- _]; auto.
Qed.

Lemma step_bounded (E : Env) (cap : Z) (w : World) (a : action) (w' : World) :
  bounded cap w -> step E w a = Some w' -> bounded cap w'.
Proof.
  intros (Hcap & Hlq & Hlw & Hb) Hstep.
  destruct a as [ctx event|i|i|d|ak sk|f|h|force].
  - simpl in Hstep.
    destruct (QueueNotify E w ctx event) as [[w1 err]|] eqn:Hq; [|discriminate].
    simpl in Hstep. injection Hstep as ->.
    destruct (QueueNotify_effect _ _ _ _ _ _ Hq) as (Hws & _ & _ & Hp & _).
    unfold bounded. rewrite Hws, Hp.
    destruct (QueueNotify_queues _ _ _ _ _ _ Hq) as [->|(j & q & Hqi & Hlen & ->)]; [auto|].
    rewrite length_insert. repeat split; auto.
    intros i q' Hi.
    destruct (decide (i = partition_of E (job_key j))) as [->|Hne].
    + rewrite list_lookup_insert_eq in Hi by (eapply lookup_lt_Some, Hqi).
      injection Hi as <-. rewrite length_app. simpl. lia.
    + rewrite list_lookup_insert_ne in Hi by congruence. eapply Hb, Hi.
  - simpl in Hstep.
    destruct (worker_begin_effect _ _ _ _ Hstep)
      as (j & q & e & fr & Hqi & _ & _ & _ & Hqs & Hws & _ & _ & _ & Hp & _).
    unfold bounded. rewrite Hqs, Hws, Hp, !length_insert. repeat split; auto.
    intros i' q' Hi.
    destruct (decide (i' = i)) as [->|Hne].
    + rewrite list_lookup_insert_eq in Hi by (eapply lookup_lt_Some, Hqi).
      injection Hi as <-. specialize (Hb _ _ Hqi). simpl in Hb. lia.
    + rewrite list_lookup_insert_ne in Hi by congruence. eapply Hb, Hi.
  - simpl in Hstep.
    destruct (worker_end_effect _ _ _ _ Hstep)
      as (fr & e & _ & _ & Hws & Hqs & _ & _ & Hp & _).
    unfold bounded. rewrite Hqs, Hws, Hp, length_insert. auto.
  - injection Hstep as <-. repeat split; auto.
  - injection Hstep as <-. repeat split; auto.
  - injection Hstep as <-. repeat split; auto.
  - injection Hstep as <-. repeat split; auto.
  - injection Hstep as <-. destruct force; [|repeat split; auto].
    unfold bounded. simpl. rewrite length_fmap. repeat split; auto.
    intros i q Hi. rewrite list_lookup_fmap in Hi.
    destruct (queues w !! i); [|discriminate]. injection Hi as <-. simpl. lia.
Qed.

(** X2: the capacity of the queues is fixed at construction:
    [QueueSize], or [defaultQueueSize] (100) when [QueueSize] is 0.
    Whatever the callers and the workers do afterwards, there are
    [numWorkers] (10) queues and none holds more jobs than the
    capacity. *)
Theorem queues_stay_bounded (E : Env) (p0 : URLNotifierParams)
    (h0 : gmap loc livekit.WebhookEvent) (t0 : Time) (tr : list action) (w : World) :
  run E (NewURLNotifier p0 h0 t0) tr = Some w ->
  QueueSize (params w) = capacity p0
  /\ (QueueSize p0 = 0 -> capacity p0 = 100)
  /\ length (queues w) = 10%nat
  /\ forall i, Z.of_nat (length (queue_of w i)) <= Z.max 0 (capacity p0).
Proof.
  intros Hrun.
  assert (H0 : bounded (capacity p0) (NewURLNotifier p0 h0 t0)).
  { unfold bounded, NewURLNotifier, capacity. cbn [params QueueSize queues workers].
    rewrite !length_replicate. repeat split.
    intros i q Hi. apply lookup_replicate in Hi as [-> _]. simpl. lia. }
  destruct (run_invariant E (bounded (capacity p0)) (step_bounded E (capacity p0))
              tr _ w H0 Hrun) as (Hcap & Hlq & _ & Hb).
  split; [exact Hcap|]. split.
  { intros Hz. unfold capacity. rewrite Hz. reflexivity. }
  split; [exact Hlq|].
  intros i. unfold queue_of. destruct (queues w !! i) as [q|] eqn:Hi; simpl.
  - eapply Hb, Hi.
  - lia.
Qed.

Lemma queues_stay_bounded_witness :
  exists w,
    run (Demo.env 1) (NewURLNotifier (Demo.config 0 None) Demo.events 1000) Demo.outage
      = Some w
    /\ QueueSize (params w) = 100
    /\ forall i, Z.of_nat (length (queue_of w i)) <= 100.
Proof.
  destruct (run (Demo.env 1) (NewURLNotifier (Demo.config 0 None) Demo.events 1000)
              Demo.outage) as [w|] eqn:Hrun; [|vm_compute in Hrun; discriminate].
  destruct (queues_stay_bounded (Demo.env 1) (Demo.config 0 None) Demo.events 1000
              Demo.outage w Hrun) as (Hcap & _ & _ & Hb).
  exists w. split; [reflexivity|]. split; [exact Hcap|exact Hb].
Defined.

(** ** The counter under concurrent sends *)

Lemma wrap32_spec (x : Z) : exists k, wrap32 x = x + 4294967296 * k.
Proof.
  unfold wrap32. exists (- ((x + 2147483648) / 4294967296)).
  pose proof (Z.div_mod (x + 2147483648) 4294967296). lia.
Qed.

Lemma wrap32_eq (a b : Z) :
  wrap32 a = wrap32 b <-> exists k, a = b + 4294967296 * k.
Proof.
  split.
  - intros H. destruct (wrap32_spec a) as [ka Ha]. destruct (wrap32_spec b) as [kb Hb].
    exists (kb - ka). lia.
  - intros [k ->]. unfold wrap32. f_equal.
    replace (b + 4294967296 * k + 2147483648) with (b + 2147483648 + k * 4294967296) by lia.
    apply Z_mod_plus_full.
Qed.

Lemma reported_app (l l' : list Obs) : reported (l ++ l') = reported l + reported l'.
Proof.
  induction l as [|o l IH]; simpl; [reflexivity|].
  destruct o; rewrite IH; lia.
Qed.

Lemma held_by_insert (h : gmap loc livekit.WebhookEvent) (l : list (option Frame))
    (i : nat) (f0 x : option Frame) :
  l !! i = Some f0 ->
  foldr Z.add 0 (held_by h <$> <[i := x]> l)
  = foldr Z.add 0 (held_by h <$> l) - held_by h f0 + held_by h x.
Proof.
  revert i. induction l as [|f l IH]; intros [|i] Hl; try discriminate.
  - injection Hl as ->. change (<[0%nat := x]> (f0 :: l)) with (x :: l).
    rewrite !fmap_cons. simpl. lia.
  - change (<[S i := x]> (f :: l)) with (f :: <[i := x]> l).
    rewrite !fmap_cons. simpl. rewrite (IH i Hl). lia.
Qed.

Lemma held_by_elsewhere (h : gmap loc livekit.WebhookEvent) (p : loc)
    (e : livekit.WebhookEvent) (l : list (option Frame)) :
  (forall i fr, l !! i = Some (Some fr) -> job_event (fr_job fr) <> p) ->
  held_by (<[p := e]> h) <$> l = held_by h <$> l.
Proof.
  induction l as [|f l IH]; intros Hl; [reflexivity|].
  rewrite !fmap_cons.
  rewrite IH by (intros i fr Hi; exact (Hl (S i) fr Hi)).
  f_equal. destruct f as [fr|]; simpl; [|reflexivity].
  rewrite lookup_insert_ne; [reflexivity|].
  intros Heq. exact (Hl 0%nat fr eq_refl (eq_sym Heq)).
Qed.

Lemma QueueNotify_accepted_job (E : Env) (w : World) (ctx : Ctx) (event : loc)
    (w' : World) (err : option error) (j : Job) :
  QueueNotify E w ctx event = Some (w', err) ->
  history w' = history w ++ [OAccepted j] ->
  exists e, heap w !! event = Some e /\ j = job_of E w ctx event e.
Proof.
  intros Hq Hhist.
  destruct (QueueNotify_records _ _ _ _ _ _ Hq)
    as (e & He & _ & _ & _ & _ & _ & _ & [([H|H] & _)|(H & _)]);
    rewrite Hhist in H.
  - apply (f_equal length) in H. rewrite length_app in H. simpl in H. lia.
  - apply app_inv_head in H. injection H as ->. eauto.
  - apply app_inv_head in H. discriminate.
Qed.

Lemma keyed_heap_same (E : Env) (w w' : World) (i : nat) (j : Job) :
  heap w' = heap w -> keyed E w i j -> keyed E w' i j.
Proof. unfold keyed. intros ->. auto. Qed.

Lemma keyed_swap (E : Env) (w w' : World) (p : loc) (e : livekit.WebhookEvent) (n : Z)
    (i : nat) (j : Job) :
  (forall e n, eventKey E (livekit.set_NumDropped e n) = eventKey E e) ->
  heap w !! p = Some e ->
  heap w' = <[p := livekit.set_NumDropped e n]> (heap w) ->
  keyed E w i j -> keyed E w' i j.
Proof.
  unfold keyed. intros eventKey_NumDropped He -> (Hpart & e' & He' & Hk).
  split; [exact Hpart|].
  destruct (decide (job_event j = p)) as [Heq|Hne].
  - rewrite Heq, lookup_insert_eq. eexists. split; [reflexivity|].
    rewrite eventKey_NumDropped. rewrite Heq, He in He'. congruence.
  - rewrite lookup_insert_ne by congruence. eauto.
Qed.

Lemma step_ledger_inv (E : Env) (w : World) (a : action) (w' : World) :
  (forall e n, eventKey E (livekit.set_NumDropped e n) = eventKey E e) ->
  ledger_inv E w -> step E w a = Some w' -> ledger_inv E w'.
Proof.
  intros eventKey_NumDropped (Hq & Hw & Hsum) Hstep.
  destruct a as [ctx event|i|i|d|ak sk|f|h|force]; simpl in Hstep.
  - destruct (QueueNotify E w ctx event) as [[w1 err]|] eqn:Hn; [|discriminate].
    simpl in Hstep. injection Hstep as ->.
    destruct (QueueNotify_effect _ _ _ _ _ _ Hn)
      as (Hwk & Hheap & _ & _ &
          [(Hhist & Hd & Hqs)|[(j & q & Hhist & Hd & _ & Hqi & Hqs & _)|(j & Hhist & Hd & Hqs)]]).
    + unfold ledger_inv, held. rewrite Hqs, Hwk, Hheap, Hhist, Hd.
      (split; [|split]); auto.
      * intros i q Hi. eapply Forall_impl; [exact (Hq i q Hi)|].
        intros j. apply (keyed_heap_same E). exact Hheap.
      * intros i fr Hi. apply (keyed_heap_same E w); auto.
    + destruct (QueueNotify_accepted_job _ _ _ _ _ _ _ Hn Hhist) as (e & He & ->).
      unfold ledger_inv, held. rewrite Hqs, Hwk, Hheap, Hhist, Hd.
      split; [|split].
      * intros i q' Hi.
        destruct (decide (i = partition_of E (job_key (job_of E w ctx event e))))
          as [->|Hne].
        -- rewrite list_lookup_insert_eq in Hi by (eapply lookup_lt_Some; exact Hqi).
           injection Hi as <-. apply Forall_app. split.
           ++ eapply Forall_impl; [exact (Hq _ q Hqi)|].
              intros j. apply (keyed_heap_same E). exact Hheap.
           ++ apply Forall_singleton. split; [reflexivity|].
              exists e. rewrite Hheap. split; [exact He|reflexivity].
        -- rewrite list_lookup_insert_ne in Hi by congruence.
           eapply Forall_impl; [exact (Hq i q' Hi)|].
           intros j. apply (keyed_heap_same E). exact Hheap.
      * intros i fr Hi. apply (keyed_heap_same E w); auto.
      * rewrite reported_app, count_drops_app. simpl. rewrite !Z.add_0_r. exact Hsum.
    + unfold ledger_inv, held. rewrite Hqs, Hwk, Hheap, Hhist, Hd.
      split; [|split].
      * intros i q Hi. eapply Forall_impl; [exact (Hq i q Hi)|].
        intros j'. apply (keyed_heap_same E). exact Hheap.
      * intros i fr Hi. apply (keyed_heap_same E w); auto.
      * rewrite reported_app, count_drops_app. simpl.
        apply wrap32_eq in Hsum as [k Hk]. fold (held w) in Hk.
        destruct (wrap32_spec (dropped w + 1)) as [k1 Hk1].
        apply wrap32_eq. exists (k + k1). unfold held in Hk. lia.
  - destruct (worker_begin_effect _ _ _ _ Hstep)
      as (j & q & e & fr & Hqi & Hwi & He & Hfr & Hqs & Hwk & Hheap & Hd & _ & _ & Hhist).
    assert (Hj : keyed E w i j).
    { pose proof (Hq i _ Hqi) as HF. apply Forall_cons in HF as [Hj _]. exact Hj. }
    assert (Hdistinct : forall i' fr',
              workers w !! i' = Some (Some fr') -> job_event (fr_job fr') <> job_event j).
    { intros i' fr' Hi' Heq.
      destruct (Hw i' fr' Hi') as (Hp' & e' & He' & Hk').
      destruct Hj as (Hp & e0 & He0 & Hk).
      rewrite Heq, He0 in He'. injection He' as <-.
      assert (i' = i) as -> by congruence.
      rewrite Hwi in Hi'. discriminate. }
    unfold ledger_inv. split; [|split].
    + intros i' q' Hi'. rewrite Hqs in Hi'.
      destruct (decide (i' = i)) as [->|Hne].
      * rewrite list_lookup_insert_eq in Hi' by (eapply lookup_lt_Some; exact Hqi).
        injection Hi' as <-.
        pose proof (Hq i _ Hqi) as HF. apply Forall_cons in HF as [_ HF].
        eapply Forall_impl; [exact HF|]. intros j'. apply (keyed_swap E w w' _ e _ _ _ eventKey_NumDropped He Hheap).
      * rewrite list_lookup_insert_ne in Hi' by congruence.
        eapply Forall_impl; [exact (Hq i' q' Hi')|].
        intros j'. apply (keyed_swap E w w' _ e _ _ _ eventKey_NumDropped He Hheap).
    + intros i' fr' Hi'. rewrite Hwk in Hi'.
      destruct (decide (i' = i)) as [->|Hne].
      * rewrite list_lookup_insert_eq in Hi' by (eapply lookup_lt_Some; exact Hwi).
        injection Hi' as <-. rewrite Hfr.
        apply (keyed_swap E w w' _ e _ _ _ eventKey_NumDropped He Hheap). exact Hj.
      * rewrite list_lookup_insert_ne in Hi' by congruence.
        apply (keyed_swap E w w' _ e _ _ _ eventKey_NumDropped He Hheap). exact (Hw i' fr' Hi').
    + unfold held. rewrite Hwk, (held_by_insert _ _ _ None _ Hwi), Hheap.
      rewrite (held_by_elsewhere _ _ _ _ Hdistinct). simpl.
      rewrite Hfr, lookup_insert_eq. simpl.
      rewrite Hhist, reported_app, count_drops_app, Hd. simpl.
      apply wrap32_eq in Hsum as [k Hk]. unfold held in Hk.
      apply wrap32_eq. exists k. lia.
  - destruct (worker_end_effect _ _ _ _ Hstep)
      as (fr & e & Hwi & He & Hwk & Hqs & Hheap & _ & _ & Hout).
    assert (Hheld : held w' = held w - livekit.NumDropped e).
    { unfold held. rewrite Hwk, Hheap, (held_by_insert _ _ _ _ _ Hwi). simpl.
      rewrite He. lia. }
    unfold ledger_inv. split; [|split].
    + intros i' q' Hi'. rewrite Hqs in Hi'.
      eapply Forall_impl; [exact (Hq i' q' Hi')|].
      intros j'. apply (keyed_heap_same E). exact Hheap.
    + intros i' fr' Hi'. rewrite Hwk in Hi'.
      destruct (decide (i' = i)) as [->|Hne].
      * rewrite list_lookup_insert_eq in Hi' by (eapply lookup_lt_Some; exact Hwi).
        discriminate.
      * rewrite list_lookup_insert_ne in Hi' by congruence.
        apply (keyed_heap_same E w); auto.
    + rewrite Hheld. apply wrap32_eq in Hsum as [k Hk].
      destruct Hout as [(r & Hhist & Hd & _)|(Hhist & Hd)];
        rewrite Hhist, reported_app, count_drops_app, Hd; simpl.
      * apply wrap32_eq. exists k. lia.
      * destruct (wrap32_spec (dropped w + (livekit.NumDropped e + 1))) as [k1 Hk1].
        apply wrap32_eq. exists (k + k1). lia.
  - injection Hstep as <-. unfold ledger_inv, keyed, held in *. simpl. auto.
  - injection Hstep as <-. unfold ledger_inv, keyed, held in *. simpl. auto.
  - injection Hstep as <-. unfold ledger_inv, keyed, held in *. simpl. auto.
  - injection Hstep as <-. unfold ledger_inv, keyed, held in *. simpl. auto.
  - injection Hstep as <-. unfold ledger_inv, held.
    destruct force; simpl; rewrite reported_app, count_drops_app; simpl;
      rewrite !Z.add_0_r; (split; [|split; [|exact Hsum]]); auto.
    intros i q Hi. rewrite list_lookup_fmap in Hi.
    destruct (queues w !! i); [|discriminate]. injection Hi as <-. constructor.
Qed.

(** X3: no drop is lost or counted twice, however many workers are
    inside [send] at the same time.  Provided the key of an event does
    not depend on its [NumDropped], at every point of every execution the
    drops recorded (submissions turned down and sends that failed) are,
    in [int32] arithmetic, the counter, plus the values the sends under
    way have swapped into their events, plus the [NumDropped] of the
    events delivered; when no send is under way, they are the counter
    plus the values delivered. *)
Theorem no_drop_lost_under_concurrent_sends (E : Env) (p0 : URLNotifierParams)
    (h0 : gmap loc livekit.WebhookEvent) (t0 : Time) (tr : list action) (w : World) :
  (forall e n, eventKey E (livekit.set_NumDropped e n) = eventKey E e) ->
  run E (NewURLNotifier p0 h0 t0) tr = Some w ->
  wrap32 (dropped w + held w + reported (history w)) = wrap32 (count_drops (history w))
  /\ (idle w ->
      wrap32 (dropped w + reported (history w)) = wrap32 (count_drops (history w))).
Proof.
  intros Hkey Hrun.
  assert (H : ledger_inv E w).
  { apply (run_invariant E (ledger_inv E)
             (fun w1 a w2 => step_ledger_inv E w1 a w2 Hkey) tr
             (NewURLNotifier p0 h0 t0) w); [|exact Hrun].
    unfold ledger_inv, held. split; [|split; [|reflexivity]].
    - intros i q Hi. apply lookup_replicate in Hi as [-> _]. constructor.
    - intros i fr Hi. apply lookup_replicate in Hi as [Hi _]. discriminate. }
  destruct H as (_ & _ & Hsum). split; [exact Hsum|].
  intros Hidle.
  assert (Hz : held w = 0).
  { unfold held. unfold idle in Hidle.
    assert (HF : forall l : list (option Frame),
               (forall i fr, l !! i <> Some (Some fr)) ->
               foldr Z.add 0 (held_by (heap w) <$> l) = 0).
    { induction l as [|f l IH]; intros Hl; [reflexivity|].
      rewrite fmap_cons. cbn [foldr].
      rewrite IH by (intros i fr; exact (Hl (S i) fr)).
      destruct f as [fr|]; [exfalso; exact (Hl 0%nat fr eq_refl)|reflexivity]. }
    apply HF. exact Hidle. }
  rewrite Hz, Z.add_0_r in Hsum. exact Hsum.
Qed.

Lemma no_drop_lost_under_concurrent_sends_witness :
  exists w,
    run (Demo.env 1) (NewURLNotifier (Demo.config 1 None) Demo.events 1000)
      [ANotify 0%nat 1%positive; ANotify 0%nat 2%positive; ANotify 0%nat 4%positive;
       ABegin 1; ABegin 2; AEnd 1; AEnd 2] = Some w
    /\ wrap32 (dropped w + held w + reported (history w))
       = wrap32 (count_drops (history w)).
Proof.
  destruct (run (Demo.env 1) (NewURLNotifier (Demo.config 1 None) Demo.events 1000)
              [ANotify 0%nat 1%positive; ANotify 0%nat 2%positive; ANotify 0%nat 4%positive;
               ABegin 1; ABegin 2; AEnd 1; AEnd 2])
    as [w|] eqn:Hrun; [|vm_compute in Hrun; discriminate].
  exists w. split; [reflexivity|].
  exact (proj1 (no_drop_lost_under_concurrent_sends (Demo.env 1) (Demo.config 1 None)
                  Demo.events 1000 _ w (fun e n => eq_refl) Hrun)).
Defined.

(** ** One call of the processed hook for each event *)







(** ** The log *)




(** ** The response bodies *)





(** ** The requests *)

Lemma signed_request_webhook (E : Env) (w : World) (e : livekit.WebhookEvent)
    (encoded : bytes) (token : string) :
  protojson_Marshal E e = Ok encoded ->
  webhook_request E (URL (params w)) (signed_request E w encoded token).
Proof.
  intros Hm. unfold webhook_request, signed_request, Header_Get, Header_Set. simpl.
  repeat split.
  - destruct (String.eqb (authHeader E) "content-type") eqn:Heq; simpl.
    + reflexivity.
    + rewrite Heq. reflexivity.
  - exists e. exact Hm.
Qed.

Lemma step_requests_inv (E : Env) (url : string) (w : World) (a : action) (w' : World) :
  requests_inv E url w -> step E w a = Some w' -> requests_inv E url w'.
Proof.
  unfold requests_inv. intros [Hurl Hinv] Hstep.
  destruct a as [ctx event|i|i|d|ak sk|f|h|force]; simpl in Hstep.
  - destruct (QueueNotify E w ctx event) as [[w1 err]|] eqn:Hq; [|discriminate].
    simpl in Hstep. injection Hstep as ->.
    destruct (QueueNotify_records _ _ _ _ _ _ Hq)
      as (e & _ & _ & Hp & _ & _ & Hh & _). rewrite Hp, Hh. auto.
  - destruct (worker_begin_records _ _ _ _ Hstep) as (_ & Hp & _ & _ & Hh & _).
    rewrite Hp, Hh. auto.
  - destruct (worker_end_records _ _ _ _ Hstep)
      as (fr & e & err & _ & _ & _ & Hp & _ & _ & _ & _ & _ & Hout).
    rewrite Hp. split; [exact Hurl|].
    destruct Hout as [(_ & Hh & _)|(enc & tok & Hm & _ & Hh & _)]; rewrite Hh; [exact Hinv|].
    apply Forall_app. split; [exact Hinv|].
    apply Forall_singleton. rewrite <- Hurl.
    exact (signed_request_webhook E w e enc tok Hm).
  - injection Hstep as <-. auto.
  - injection Hstep as <-. auto.
  - injection Hstep as <-. auto.
  - injection Hstep as <-. auto.
  - injection Hstep as <-. destruct force; auto.
Qed.

(** X8: the URL of the notifier stays the one given at construction,
    also across [SetKeys], and every request handed to the HTTP client
    is a POST to that URL with the content type
    [application/webhook+json] and a body that is the encoding of an
    event. *)
Theorem every_request_is_a_webhook_post (E : Env) (p0 : URLNotifierParams)
    (h0 : gmap loc livekit.WebhookEvent) (t0 : Time) (tr : list action) (w : World) :
  run E (NewURLNotifier p0 h0 t0) tr = Some w ->
  URL (params w) = URL p0
  /\ Forall (webhook_request E (URL p0)) (httpCalls w).
Proof.
  intros Hrun.
  apply (run_invariant E (requests_inv E (URL p0)) (step_requests_inv E (URL p0)) tr
           (NewURLNotifier p0 h0 t0) w); [|exact Hrun].
  split; [reflexivity|constructor].
Qed.

Lemma every_request_is_a_webhook_post_witness :
  exists w,
    run (Demo.env 1) (NewURLNotifier (Demo.config 1 None) Demo.events 1000) Demo.outage
      = Some w
    /\ Forall (webhook_request (Demo.env 1) "http://localhost/hook") (httpCalls w).
Proof.
  destruct (run (Demo.env 1) (NewURLNotifier (Demo.config 1 None) Demo.events 1000) Demo.outage)
    as [w|] eqn:Hrun; [|vm_compute in Hrun; discriminate].
  exists w. split; [reflexivity|].
  destruct (every_request_is_a_webhook_post (Demo.env 1) (Demo.config 1 None) Demo.events
              1000 Demo.outage w Hrun) as (_ & H).
  exact H.
Defined.

(** ** The fields hook *)




(** ** The filter and the events already queued *)

Lemma worker_begin_SetFilter (E : Env) (w : World) (f : FilterParams) (i : nat) :
  worker_begin E (SetFilter w f) i = (fun w' => SetFilter w' f) <$> worker_begin E w i.
Proof.
  unfold worker_begin, task_prologue, send_swap, SetFilter. simpl.
  destruct (queues w !! i) as [[|j q]|]; try reflexivity.
  destruct (workers w !! i) as [[fr|]|]; try reflexivity.
  destruct (heap w !! job_event j); reflexivity.
Qed.

Lemma worker_end_SetFilter (E : Env) (w : World) (f : FilterParams) (i : nat) :
  worker_end E (SetFilter w f) i = (fun w' => SetFilter w' f) <$> worker_end E w i.
Proof.
  unfold worker_end, send_rest, task_epilogue, getProcessedHook, apply_FieldsHook,
    NewRequest, signing_token, SetFilter.
  simpl.
  destruct (workers w !! i) as [[fr|]|]; try reflexivity.
  destruct (heap w !! job_event (fr_job fr)) as [e|] eqn:He; [|reflexivity].
  destruct (protojson_Marshal E e); simpl; rewrite ?He; simpl.
  2:{ destruct (processedHook w); [destruct (FieldsHook (params w))|]; reflexivity. }
  destruct (AccessToken_ToJWT E _ _); simpl; rewrite ?He; simpl.
  2:{ destruct (processedHook w); [destruct (FieldsHook (params w))|]; reflexivity. }
  destruct (NewRequest_error E _ _); simpl; rewrite ?He; simpl.
  1:{ destruct (processedHook w); [destruct (FieldsHook (params w))|]; reflexivity. }
  destruct (client_Do E _ _); simpl; rewrite ?He; simpl;
    (destruct (processedHook w); [destruct (FieldsHook (params w))|]); reflexivity.
Qed.

Lemma step_SetFilter (E : Env) (w : World) (f : FilterParams) (a : action) :
  leaves_filter a = true ->
  step E (SetFilter w f) a = (fun w' => SetFilter w' f) <$> step E w a.
Proof.
  destruct a as [ctx event|i|i|d|ak sk|f'|h|force]; try discriminate; intros _; simpl.
  - apply worker_begin_SetFilter.
  - apply worker_end_SetFilter.
  - reflexivity.
  - reflexivity.
  - reflexivity.
  - destruct force; reflexivity.
Qed.

(** X9: the filter is consulted on submission only.  Over steps of the
    workers, ticks of the clock, changes of the keys or of the hook and
    [Stop], it makes no difference whether [SetFilter] is called before
    or after them: the events already queued are sent as they would
    have been. *)
Theorem SetFilter_spares_queued_events (E : Env) (w : World) (f : FilterParams)
    (tr : list action) :
  forallb leaves_filter tr = true ->
  run E (SetFilter w f) tr = (fun w' => SetFilter w' f) <$> run E w tr.
Proof.
  revert w. induction tr as [|a tr IH]; intros w Hok; simpl in *; [reflexivity|].
  apply andb_true_iff in Hok as [Ha Hok].
  rewrite (step_SetFilter E w f a Ha).
  destruct (step E w a) as [w1|]; simpl; [apply IH; exact Hok|reflexivity].
Qed.

Lemma SetFilter_spares_queued_events_witness :
  run (Demo.env 0)
    (SetFilter Demo.full {| IncludeEvents := []; ExcludeEvents := ["room_started"] |})
    [ABegin 1; AEnd 1]
  = (fun w' => SetFilter w' {| IncludeEvents := []; ExcludeEvents := ["room_started"] |})
      <$> run (Demo.env 0) Demo.full [ABegin 1; AEnd 1].
Proof.
  apply (SetFilter_spares_queued_events (Demo.env 0) Demo.full
           {| IncludeEvents := []; ExcludeEvents := ["room_started"] |} [ABegin 1; AEnd 1]).
  reflexivity.
Defined.

(** ** The key pair and the events already queued *)




(** ** The events of the callers *)

Lemma NumDropped_written_refl (o : option livekit.WebhookEvent) :
  NumDropped_written o o.
Proof.
  destruct o as [e|]; simpl; [|reflexivity].
  exists (livekit.NumDropped e). destruct e; reflexivity.
Qed.

Lemma started_events_app (l l' : list Obs) :
  started_events (l ++ l') = started_events l ++ started_events l'.
Proof. apply omap_app. Qed.

Lemma heap_inv_same (w0 w w' : World) (os : list Obs) :
  heap_inv w0 w -> history w' = history w ++ os -> heap w' = heap w ->
  heap_inv w0 w'.
Proof.
  intros (hs & Hh & Hp) Hhist Hheap. exists (hs ++ os).
  rewrite Hhist, Hh, <- app_assoc, Hheap. split; [reflexivity|].
  intros p. destruct (Hp p) as [Hsame Hw]. split; [|exact Hw].
  intros Hn. apply Hsame. rewrite started_events_app in Hn.
  intros Hin. apply Hn. apply elem_of_app. left. exact Hin.
Qed.

Lemma step_heap_inv (E : Env) (w0 w : World) (a : action) (w' : World) :
  heap_inv w0 w -> step E w a = Some w' -> heap_inv w0 w'.
Proof.
  intros Hinv Hstep.
  destruct a as [ctx event|i|i|d|ak sk|f|h|force]; simpl in Hstep.
  - destruct (QueueNotify E w ctx event) as [[w1 err]|] eqn:Hq; [|discriminate].
    simpl in Hstep. injection Hstep as ->.
    destruct (QueueNotify_effect _ _ _ _ _ _ Hq)
      as (_ & Hheap & _ & _ & [(Hhist & _)|[(j & q & Hhist & _)|(j & Hhist & _)]]).
    + apply (heap_inv_same w0 w w' []); rewrite ?app_nil_r; auto.
    + apply (heap_inv_same w0 w w' [OAccepted j]); auto.
    + apply (heap_inv_same w0 w w' [ORejected j]); auto.
  - destruct (worker_begin_effect _ _ _ _ Hstep)
      as (j & q & e & fr & _ & _ & He & _ & _ & _ & Hheap & _ & _ & _ & Hhist).
    destruct Hinv as (hs & Hh & Hp).
    exists (hs ++ [OStarted i j; OSwap (job_event j) (dropped w)]).
    rewrite Hhist, Hh, <- app_assoc, Hheap. split; [reflexivity|].
    intros p. destruct (Hp p) as [Hsame Hw].
    destruct (decide (p = job_event j)) as [->|Hne].
    + rewrite lookup_insert_eq. split.
      * intros Hn. exfalso. apply Hn. rewrite started_events_app.
        apply elem_of_app. right. simpl. left.
      * rewrite He in Hw. unfold NumDropped_written in *.
        destruct (heap w0 !! job_event j) as [e0|]; [|discriminate].
        destruct Hw as [n [= ->]]. exists (dropped w). reflexivity.
    + rewrite lookup_insert_ne by congruence. split; [|exact Hw].
      intros Hn. apply Hsame. rewrite started_events_app in Hn.
      intros Hin. apply Hn. apply elem_of_app. left. exact Hin.
  - destruct (worker_end_effect _ _ _ _ Hstep)
      as (fr & e & _ & _ & _ & _ & Hheap & _ & _ & [(r & Hhist & _)|(Hhist & _)]).
    + apply (heap_inv_same w0 w w' _ Hinv Hhist Hheap).
    + apply (heap_inv_same w0 w w' _ Hinv Hhist Hheap).
  - injection Hstep as <-. apply (heap_inv_same w0 w _ []); rewrite ?app_nil_r; auto.
  - injection Hstep as <-. apply (heap_inv_same w0 w _ []); rewrite ?app_nil_r; auto.
  - injection Hstep as <-. apply (heap_inv_same w0 w _ []); rewrite ?app_nil_r; auto.
  - injection Hstep as <-. apply (heap_inv_same w0 w _ []); rewrite ?app_nil_r; auto.
  - injection Hstep as <-.
    apply (heap_inv_same w0 w _ [OStopped force]); auto; destruct force; reflexivity.
Qed.

(** X11: of the events it is handed by pointer the notifier writes
    [NumDropped] and nothing else, and only of those whose sending has
    begun: the event of every other cell of the heap is as it was, and
    no cell is added or removed. *)
Theorem events_change_in_NumDropped_only (E : Env) (w : World) (tr : list action)
    (w' : World) :
  run E w tr = Some w' ->
  exists hs,
    history w' = history w ++ hs
    /\ forall p,
         (p ∉ started_events hs -> heap w' !! p = heap w !! p)
         /\ NumDropped_written (heap w !! p) (heap w' !! p).
Proof.
  intros Hrun.
  apply (run_invariant E (heap_inv w) (step_heap_inv E w) tr w w'); [|exact Hrun].
  exists []. rewrite app_nil_r. split; [reflexivity|].
  intros p. split; [reflexivity|apply NumDropped_written_refl].
Qed.

Lemma events_change_in_NumDropped_only_witness :
  exists w,
    run (Demo.env 1) (Demo.world 1 None) (tail Demo.outage) = Some w
    /\ forall p, NumDropped_written (heap (Demo.world 1 None) !! p) (heap w !! p).
Proof.
  destruct (run (Demo.env 1) (Demo.world 1 None) (tail Demo.outage))
    as [w|] eqn:Hrun; [|vm_compute in Hrun; discriminate].
  exists w. split; [reflexivity|].
  destruct (events_change_in_NumDropped_only (Demo.env 1) (Demo.world 1 None)
              (tail Demo.outage) w Hrun) as (hs & _ & H).
  intros p. exact (proj2 (H p)).
Defined.

(** ** One request for each send *)





